(** * Indelve: the search orchestrator of [indelve/main.py]

    A shallow embedding of class [Indelve] (construction, provider
    registry, refresh and search) and the properties of its
    specification.

    Python values are embedded as follows.
    - Text is the byte-string type [str]; on the values modelled here
      [isinstance(x, str)] and [isinstance(x, basestring)] coincide.
    - [self.providerInstances] is a dict whose iteration order matters
      to [search]; it is an association list with unique keys, kept in
      insertion order, and [d[k] = v] either overwrites the entry of [k]
      in place or appends a new one.  An interpreter whose dicts iterate
      in hash order visits the same entries in another order: the
      theorems speak of the order of the table, whatever it is, and
      only the examples show the insertion order.
    - Provider instances are objects with identity and private state:
      they live in a heap addressed by references and the instance
      table stores references.
    - Exceptions, warnings, imports and calls into providers are
      effects: every method is a computation in a state-and-exception
      monad over [World], which also keeps a trace of these effects. *)

From Stdlib Require Import ZArith String Ascii List Sorted Permutation Lia.
From stdpp Require Import gmap strings list sorting.

Local Open Scope string_scope.
Local Open Scope Z_scope.
Local Open Scope list_scope.

(** ** Python values *)

(** Arguments that callers may pass to the methods. *)
#[warnings="-register-all"]
Inductive pyval : Type :=
| PyNone
| PyInt (n : Z)
| PyStr (s : string)
| PyList (l : list pyval).

(** Values stored in the fields of an item dict. *)
Inductive field : Type :=
| FInt (n : Z)
| FStr (s : string).

(** An <item-dict>: a mapping from field names to values. *)
Abbreviation Item := (gmap string field).

(** The exception classes that occur in [main.py].  [NoProvidersError],
    [ProviderLoadError] and the warning category [ProviderLoadWarning]
    are the classes star-imported from module [bad]; [ProviderError]
    stands for any other exception raised by provider code. *)
Inductive exn : Type :=
| TypeError (msg : string)
| ValueError (msg : string)
| ImportError (msg : string)
| KeyError (key : string)
| AttributeError (attr : string)
| NotImplementedError (msg : string)
| AssertionError
| NoProvidersError
| ProviderLoadError (provider : string)
| ProviderError (msg : string).

Inductive warning_category : Type :=
| ProviderLoadWarning.

(** The outcome of a call: a value, or a raised exception. *)
Inductive res (A : Type) : Type :=
| Ok (a : A)
| Raise (e : exn).
Arguments Ok {A} a.
Arguments Raise {A} e.

(** ** Providers and modules *)

(** A provider instance: private state and the two methods of the
    provider interface acting on it.  Each method yields its outcome
    and the state it leaves behind. *)
Record ProviderObj : Type := {
  p_state : Type;
  p_data : p_state;
  p_search : p_state -> string -> res (list Item) * p_state;
  p_refresh : p_state -> bool -> res unit * p_state
}.

(** Class [Provider] of a provider module: the static [description]
    dict and the outcome of calling the constructor [Provider()]. *)
Record ProviderClass : Type := {
  description : gmap string string;
  construct : res ProviderObj
}.

(** What [import_module] can return: the package's [__init__] module,
    which carries [__all__], or a provider module, which carries
    [Provider]. *)
Inductive PyModule : Type :=
| PackageInit (all : list string)
| ProviderModule (cls : ProviderClass).

(** ** The world *)

Definition ref := nat.

Inductive event : Type :=
| EvImport (name : string)
| EvWarn (message : string) (category : warning_category)
| EvSearch (r : ref) (query : string)
| EvRefresh (r : ref) (force : bool).

Record World : Type := {
  providerInstances : list (string * ref);
  heap : ref -> ProviderObj;
  next_ref : ref;
  trace : list event
}.

Definition M (A : Type) : Type := World -> res A * World.

Definition ret {A} (a : A) : M A := fun w => (Ok a, w).

Definition raise {A} (e : exn) : M A := fun w => (Raise e, w).

(** An effect-free computation that may raise. *)
Definition lift {A} (r : res A) : M A := fun w => (r, w).

#[global] Instance M_bind : MBind M := fun A B (k : A -> M B) (m : M A) w =>
  match m w with
  | (Ok a, w') => k a w'
  | (Raise e, w') => (Raise e, w')
  end.

#[global] Instance M_ret : MRet M := @ret.

(** [try: m except handles: ...]: run [m]; an exception selected by
    [handles] is caught and reported as [None]. *)
Definition try_except {A} (m : M A) (handles : exn -> bool) : M (option A) :=
  fun w =>
    match m w with
    | (Ok a, w') => (Ok (Some a), w')
    | (Raise e, w') => if handles e then (Ok None, w') else (Raise e, w')
    end.

Definition record (e : event) (w : World) : World :=
  {| providerInstances := providerInstances w;
     heap := heap w;
     next_ref := next_ref w;
     trace := trace w ++ [e] |}.

Definition log (e : event) : M unit := fun w => (Ok tt, record e w).

Definition get_instances : M (list (string * ref)) :=
  fun w => (Ok (providerInstances w), w).

Definition set_instances (d : list (string * ref)) : M unit :=
  fun w => (Ok tt, {| providerInstances := d;
                      heap := heap w;
                      next_ref := next_ref w;
                      trace := trace w |}).

(** Allocation of a fresh object. *)
Definition alloc (o : ProviderObj) : M ref :=
  fun w => (Ok (next_ref w),
            {| providerInstances := providerInstances w;
               heap := fun r => if Nat.eqb r (next_ref w) then o else heap w r;
               next_ref := S (next_ref w);
               trace := trace w |}).

Definition with_state (o : ProviderObj) (s : p_state o) : ProviderObj :=
  {| p_state := p_state o; p_data := s;
     p_search := p_search o; p_refresh := p_refresh o |}.

Definition store (r : ref) (o : ProviderObj) (w : World) : World :=
  {| providerInstances := providerInstances w;
     heap := fun r' => if Nat.eqb r' r then o else heap w r';
     next_ref := next_ref w;
     trace := trace w |}.

(** [obj.search(query)] on the object behind reference [r]. *)
Definition call_search (r : ref) (query : string) : M (list Item) :=
  fun w =>
    let o := heap w r in
    let (out, s) := p_search o (p_data o) query in
    (out, store r (with_state o s) (record (EvSearch r query) w)).

(** [obj.refresh(force)] on the object behind reference [r]. *)
Definition call_refresh (r : ref) (force : bool) : M unit :=
  fun w =>
    let o := heap w r in
    let (out, s) := p_refresh o (p_data o) force in
    (out, store r (with_state o s) (record (EvRefresh r force) w)).

Definition warn (message : string) (category : warning_category) : M unit :=
  log (EvWarn message category).

(** ** Dicts with insertion order *)

Fixpoint dict_set {V} (k : string) (v : V) (d : list (string * V)) : list (string * V) :=
  match d with
  | [] => [(k, v)]
  | (k', v') :: d' =>
      if String.eqb k k' then (k', v) :: d' else (k', v') :: dict_set k v d'
  end.

Fixpoint dict_get {V} (k : string) (d : list (string * V)) : option V :=
  match d with
  | [] => None
  | (k', v) :: d' => if String.eqb k k' then Some v else dict_get k d'
  end.

Definition dict_keys {V} (d : list (string * V)) : list string := map fst d.

(** ** Sorting by key

    [list.sort(key=f)] first evaluates [f] on every element, in order,
    and then sorts stably and ascending by the keys. *)

(** The natural ordering of field values: integers by value, strings
    lexicographically, and every integer before every string. *)
Definition field_leb (a b : field) : bool :=
  match a, b with
  | FInt x, FInt y => Z.leb x y
  | FInt _, FStr _ => true
  | FStr _, FInt _ => false
  | FStr s, FStr t => String.leb s t
  end.

Definition field_le (a b : field) : Prop := field_leb a b = true.

Section StableSort.
Context {A : Type}.

Fixpoint insert_keyed (x : field * A) (l : list (field * A)) : list (field * A) :=
  match l with
  | [] => [x]
  | y :: l' =>
      if field_leb (fst x) (fst y) then x :: y :: l' else y :: insert_keyed x l'
  end.

(** Insertion from the right end keeps equal keys in their original
    order. *)
Definition sort_keyed (l : list (field * A)) : list (field * A) :=
  foldr insert_keyed [] l.

(** Evaluation of the key function on every element; the first
    failure aborts the sort. *)
Fixpoint decorate (key : A -> res field) (l : list A) : res (list (field * A)) :=
  match l with
  | [] => Ok []
  | x :: l' =>
      match key x with
      | Raise e => Raise e
      | Ok k =>
          match decorate key l' with
          | Raise e => Raise e
          | Ok kl => Ok ((k, x) :: kl)
          end
      end
  end.

Definition list_sort (key : A -> res field) (l : list A) : res (list A) :=
  match decorate key l with
  | Raise e => Raise e
  | Ok kl => Ok (map snd (sort_keyed kl))
  end.
End StableSort.

(** [a["relevance"]] *)
Definition relevance (a : Item) : res field :=
  match a !! "relevance" with
  | Some v => Ok v
  | None => Raise (KeyError "relevance")
  end.

(** ** Class Indelve *)

Definition is_import_or_key_error (e : exn) : bool :=
  match e with
  | ImportError _ | KeyError _ => true
  | _ => false
  end.

Definition is_import_error (e : exn) : bool :=
  match e with
  | ImportError _ => true
  | _ => false
  end.

Definition is_value_error (e : exn) : bool :=
  match e with
  | ValueError _ => true
  | _ => false
  end.

Definition has_key {V} (k : string) (d : gmap string V) : bool :=
  match d !! k with
  | Some _ => true
  | None => false
  end.

(** What [listProviders] returns: the list of names, or the dict of
    descriptions. *)
Inductive listing : Type :=
| Names (l : list string)
| Descriptions (d : list (string * gmap string string)).

(** Iterating a list yields its elements, iterating a dict its keys. *)
Definition iterate (l : listing) : list pyval :=
  match l with
  | Names l => map PyStr l
  | Descriptions d => map PyStr (dict_keys d)
  end.

Fixpoint for_each {A} (body : A -> M unit) (l : list A) : M unit :=
  match l with
  | [] => mret tt
  | x :: l' => body x;; for_each body l'
  end.

Definition provider_package : string := "indelve.providers.".

Section Indelve.

(** The modules that [import_module] finds, by dotted name. *)
Variable import_table : string -> res PyModule.

(** [utilities.isItemDict], the check of the item shape. *)
Variable isItemDict : Item -> bool.

Definition import_module (name : string) : M PyModule :=
  fun w => (import_table name, record (EvImport name) w).

(** [module.Provider] *)
Definition get_Provider (m : PyModule) : M ProviderClass :=
  match m with
  | ProviderModule cls => mret cls
  | PackageInit _ => raise (AttributeError "Provider")
  end.

(** [module.__all__] *)
Definition get_all (m : PyModule) : M (list string) :=
  match m with
  | PackageInit all => mret all
  | ProviderModule _ => raise (AttributeError "__all__")
  end.

(** [providerModule.Provider()] *)
Definition new_Provider (cls : ProviderClass) : M ref :=
  match construct cls with
  | Ok o => alloc o
  | Raise e => raise e
  end.

(** [self.providerInstances[name]] *)
Definition lookup_instance (name : string) : M ref :=
  fun w =>
    match dict_get name (providerInstances w) with
    | Some r => (Ok r, w)
    | None => (Raise (KeyError name), w)
    end.

Definition getProviderDescription (provider : pyval) : M (gmap string string) :=
  match provider with
  | PyStr id =>
      imported ← try_except (import_module (provider_package +:+ id)) is_import_error;
      match imported with
      | None => raise (ProviderLoadError id)
      | Some providerModule =>
          cls ← get_Provider providerModule;
          let descriptionDict := description cls in
          if negb (has_key "short" descriptionDict) || negb (has_key "long" descriptionDict)
          then raise (NotImplementedError
                        ("Provider '" +:+ id +:+ "' does not have a proper description dictionary."))
          else mret descriptionDict
      end
  | _ => raise (ValueError "`provider` must be a string.")
  end.

Fixpoint describe_all (providerList : list string)
    (providerDict : list (string * gmap string string))
    : M (list (string * gmap string string)) :=
  match providerList with
  | [] => mret providerDict
  | provider :: rest =>
      d ← getProviderDescription (PyStr provider);
      describe_all rest (dict_set provider d providerDict)
  end.

Definition listProviders (descriptions : bool) : M listing :=
  initModule ← import_module (provider_package +:+ "__init__");
  providerList ← get_all initModule;
  if negb descriptions then mret (Names providerList)
  else
    providerDict ← describe_all providerList [];
    mret (Descriptions providerDict).

(** The body of the loop of [__init__]. *)
Definition load_provider (provider : pyval) : M unit :=
  match provider with
  | PyStr id =>
      imported ← try_except (import_module (provider_package +:+ id)) is_import_or_key_error;
      match imported with
      | None => warn id ProviderLoadWarning
      | Some providerModule =>
          cls ← get_Provider providerModule;
          inst ← new_Provider cls;
          d ← get_instances;
          set_instances (dict_set id inst d)
      end
  | _ => raise (TypeError "cannot concatenate 'str' and non-str objects")
  end.

(** The check of the argument of [__init__] and its default. *)
Definition resolve_providers (providers : pyval) : M (list pyval) :=
  match providers with
  | PyNone => l ← listProviders false; mret (iterate l)
  | PyList l => mret l
  | _ => raise (TypeError "`providers` must be a list or None.")
  end.

Definition Indelve_init (providers : pyval) : M unit :=
  providers ← resolve_providers providers;
  set_instances [];;
  for_each load_provider providers;;
  d ← get_instances;
  if Nat.eqb (length d) 0 then raise NoProvidersError else mret tt.

Definition refresh (force : bool) : M unit :=
  d ← get_instances;
  for_each (fun name => inst ← lookup_instance name; call_refresh inst force)
           (dict_keys d).

Definition assert_items (items : list Item) : M unit :=
  if forallb isItemDict items then mret tt else raise AssertionError.

Fixpoint search_loop (query : string) (names : list string) (items : list Item)
    : M (list Item) :=
  match names with
  | [] => mret items
  | name :: rest =>
      results ← try_except (inst ← lookup_instance name; call_search inst query)
                           is_value_error;
      match results with
      | None => search_loop query rest items
      | Some results =>
          assert_items items;;
          search_loop query rest (items ++ results)
      end
  end.

Definition search (query : pyval) : M (list Item) :=
  match query with
  | PyStr q =>
      if Nat.eqb (String.length q) 0
      then raise (ValueError "Parameter 'query' shouldn't be empty.")
      else
        d ← get_instances;
        items ← search_loop q (dict_keys d) [];
        lift (list_sort relevance items)
  | _ => raise (TypeError "Parameter 'query' should be a string.")
  end.

(** *** Vocabulary of the specification *)

(** An identifier is loadable when its module imports and the
    constructor of its [Provider] class returns an instance; it is
    unavailable when the import fails with [ImportError] or
    [KeyError]. *)
Definition loads (id : string) : option ProviderObj :=
  match import_table (provider_package +:+ id) with
  | Ok (ProviderModule cls) =>
      match construct cls with
      | Ok o => Some o
      | Raise _ => None
      end
  | _ => None
  end.

Definition unavailable (id : string) : bool :=
  match import_table (provider_package +:+ id) with
  | Raise e => is_import_or_key_error e
  | Ok _ => false
  end.

(** The worlds in which an orchestrator exists: those left by a
    construction that returned, and by any later method call on it,
    whether that call returned or raised. *)
Inductive constructed : World -> Prop :=
| constructed_init providers w0 w :
    Indelve_init providers w0 = (Ok tt, w) -> constructed w
| constructed_refresh force w :
    constructed w -> constructed (snd (refresh force w))
| constructed_search query w :
    constructed w -> constructed (snd (search query w))
| constructed_listProviders descriptions w :
    constructed w -> constructed (snd (listProviders descriptions w))
| constructed_getProviderDescription provider w :
    constructed w -> constructed (snd (getProviderDescription provider w)).

End Indelve.

(** ** Pure views of a search

    What the provider behind [r] answers to [query] in world [w], and
    the list that the loop of [search] accumulates from the answers of
    the providers taken in order. *)

Definition answer (w : World) (query : string) (r : ref) : res (list Item) :=
  fst (p_search (heap w r) (p_data (heap w r)) query).

Definition results_of (out : res (list Item)) : list Item :=
  match out with
  | Ok results => results
  | Raise _ => []
  end.

Fixpoint collect (isItemDict : Item -> bool) (outs : list (res (list Item)))
    (items : list Item) : res (list Item) :=
  match outs with
  | [] => Ok items
  | Raise e :: rest =>
      if is_value_error e then collect isItemDict rest items else Raise e
  | Ok results :: rest =>
      if forallb isItemDict items then collect isItemDict rest (items ++ results)
      else Raise AssertionError
  end.

(** The [search] calls and the warnings recorded in a trace. *)
Definition searched (tr : list event) : list ref :=
  omap (fun ev => match ev with EvSearch r _ => Some r | _ => None end) tr.

Definition warnings (tr : list event) : list (string * warning_category) :=
  omap (fun ev => match ev with EvWarn m c => Some (m, c) | _ => None end) tr.

Definition imports (tr : list event) : list string :=
  omap (fun ev => match ev with EvImport n => Some n | _ => None end) tr.

(** The shape of the instance table of a live orchestrator: a dict
    (unique keys) of distinct, allocated objects, and not empty. *)
Definition table_ok (w : World) : Prop :=
  NoDup (dict_keys (providerInstances w)) /\
  NoDup (map snd (providerInstances w)) /\
  Forall (fun r => (r < next_ref w)%nat) (map snd (providerInstances w)).

(** What a run of the loading loop of [__init__] over [ids] establishes,
    from world [w] to world [w']. *)
Record loaded (import_table : string -> res PyModule)
    (ids : list string) (w w' : World) : Prop := {
  loaded_keys : forall k,
    k ∈ dict_keys (providerInstances w') <->
    k ∈ dict_keys (providerInstances w) \/ (k ∈ ids /\ is_Some (loads import_table k));
  loaded_other : forall k,
    ~ (k ∈ ids /\ is_Some (loads import_table k)) ->
    dict_get k (providerInstances w') = dict_get k (providerInstances w);
  loaded_instance : forall id o,
    id ∈ ids -> loads import_table id = Some o ->
    exists r, dict_get id (providerInstances w') = Some r /\ heap w' r = o;
  loaded_heap : forall r, (r < next_ref w)%nat -> heap w' r = heap w r;
  loaded_next : (next_ref w <= next_ref w')%nat;
  loaded_warnings :
    warnings (trace w')
    = warnings (trace w)
      ++ map (fun id => (id, ProviderLoadWarning))
             (filter (fun id => unavailable import_table id = true) ids);
  loaded_imports :
    imports (trace w')
    = imports (trace w) ++ map (fun id => provider_package +:+ id) ids;
  loaded_searched : searched (trace w') = searched (trace w);
  loaded_table : table_ok w -> table_ok w'
}.

(** The answers of the loaded providers to a query, in the order of the
    instance table. *)
Definition answers (w : World) (query : string) : list (res (list Item)) :=
  map (fun e => answer w query (snd e)) (providerInstances w).

(** A well-behaved answer: items that pass the shape check, or the
    signal [ValueError] that the query does not suit the provider. *)
Definition well_behaved (isItemDict : Item -> bool) (out : res (list Item)) : Prop :=
  match out with
  | Ok results => Forall (fun a => isItemDict a = true) results
  | Raise e => is_value_error e = true
  end.

(** Two worlds with the same instance table and allocator. *)
Definition same_table (w w' : World) : Prop :=
  providerInstances w' = providerInstances w /\ next_ref w' = next_ref w.

(** Keyed elements, and elements, in ascending order of their keys. *)
Definition key_le {A} (x y : field * A) : Prop := field_le (fst x) (fst y).

Definition ascending {A} (key : A -> res field) (a b : A) : Prop :=
  exists ka kb, key a = Ok ka /\ key b = Ok kb /\ field_le ka kb.

(** The world in which [__init__] has just emptied the table. *)
Definition cleared (w : World) : World :=
  {| providerInstances := []; heap := heap w;
     next_ref := next_ref w; trace := trace w |}.

(** An identifier whose description lookup succeeds: its module
    imports and the description of its [Provider] has both keys. *)
Definition described (import_table : string -> res PyModule) (id : string) : Prop :=
  exists cls,
    import_table (provider_package +:+ id) = Ok (ProviderModule cls) /\
    has_key "short" (description cls) = true /\
    has_key "long" (description cls) = true.

(** ** A small installation, for examples

    Two provider modules, [p1] and [p2], whose instances answer every
    query with fixed items; [broken], whose constructor raises; [odd],
    whose description lacks the key [long]; and the package manifest
    [__all__], which also lists [zz], a module that does not exist. *)

Definition stub (out : res (list Item)) : ProviderObj :=
  {| p_state := unit;
     p_data := tt;
     p_search := fun s _ => (out, s);
     p_refresh := fun s _ => (Ok tt, s) |}.

Definition item (rel : Z) (name : string) : Item :=
  {[ "relevance" := FInt rel; "name" := FStr name ]}.

Definition full_description : gmap string string :=
  {[ "short" := "stub"; "long" := "a stub provider" ]}.

Definition example_modules (name : string) : res PyModule :=
  if String.eqb name "indelve.providers.__init__" then
    Ok (PackageInit ["p1"; "zz"; "p2"])
  else if String.eqb name "indelve.providers.p1" then
    Ok (ProviderModule {| description := full_description;
                          construct := Ok (stub (Ok [item 3 "c"; item 1 "a"])) |})
  else if String.eqb name "indelve.providers.p2" then
    Ok (ProviderModule {| description := full_description;
                          construct := Ok (stub (Ok [item 2 "b"])) |})
  else if String.eqb name "indelve.providers.picky" then
    Ok (ProviderModule {| description := full_description;
                          construct := Ok (stub (Raise (ValueError "not for me"))) |})
  else if String.eqb name "indelve.providers.odd" then
    Ok (ProviderModule {| description := {[ "short" := "odd" ]};
                          construct := Ok (stub (Ok [])) |})
  else if String.eqb name "indelve.providers.broken" then
    Ok (ProviderModule {| description := full_description;
                          construct := Raise (ProviderError "constructor failed") |})
  else Raise (ImportError ("No module named " +:+ name)).

Definition empty_world : World :=
  {| providerInstances := [];
     heap := fun _ => stub (Ok []);
     next_ref := 0%nat;
     trace := [] |}.

(** Modelled from the spec: [utilities.isItemDict] is not part of
    [main.py]; the specification requires of the item shape a mapping
    with at least the key [relevance]. *)
Definition has_relevance (a : Item) : bool := has_key "relevance" a.

(** The orchestrator built by [Indelve(providers)] in the small
    installation. *)
Definition built (providers : list string) : World :=
  snd (Indelve_init example_modules (PyList (map PyStr providers)) empty_world).

(** ** Further vocabulary

    Views of [refresh], of the failures of [__init__] and of ties in
    the sort, and a second installation for examples. *)

(** What the provider behind [r] answers to [refresh(force)] in world
    [w]. *)
Definition refreshes (w : World) (force : bool) (r : ref) : res unit :=
  fst (p_refresh (heap w r) (p_data (heap w r)) force).

(** The object that [refresh(force)] makes of provider object [o]. *)
Definition after_refresh (o : ProviderObj) (force : bool) : ProviderObj :=
  with_state o (snd (p_refresh o (p_data o) force)).

(** A provider object whose [refresh(force)] leaves its data as it is. *)
Definition keeps_data (o : ProviderObj) (force : bool) : Prop :=
  snd (p_refresh o (p_data o) force) = p_data o.

(** The [refresh] calls recorded in a trace. *)
Definition refreshed (tr : list event) : list (ref * bool) :=
  omap (fun ev => match ev with EvRefresh r f => Some (r, f) | _ => None end) tr.

(** The exception, if any, that loading identifier [id] lets through:
    an import error other than [ImportError] and [KeyError], the
    missing attribute [Provider], or whatever the constructor raises. *)
Definition breaks (import_table : string -> res PyModule) (id : string) : option exn :=
  match import_table (provider_package +:+ id) with
  | Raise e => if is_import_or_key_error e then None else Some e
  | Ok (PackageInit _) => Some (AttributeError "Provider")
  | Ok (ProviderModule cls) =>
      match construct cls with
      | Raise e => Some e
      | Ok _ => None
      end
  end.

(** World [w'] differs from [w] by imports only. *)
Definition only_imports (w w' : World) : Prop :=
  providerInstances w' = providerInstances w /\
  heap w' = heap w /\
  next_ref w' = next_ref w /\
  exists names, trace w' = trace w ++ map EvImport names.

Definition field_eqb (a b : field) : bool :=
  match a, b with
  | FInt x, FInt y => Z.eqb x y
  | FStr s, FStr t => String.eqb s t
  | _, _ => false
  end.

(** The items whose relevance is [k]. *)
Definition relevance_is (k : field) (a : Item) : bool :=
  match relevance a with
  | Ok v => field_eqb k v
  | Raise _ => false
  end.

(** A provider that counts its refreshes, fails to refresh when asked
    to [force], and answers a query with one item whose relevance is
    the count. *)
Definition counter : ProviderObj :=
  {| p_state := Z;
     p_data := 0;
     p_search := fun n _ => (Ok [item n "count"], n);
     p_refresh := fun n force =>
       if force then (Raise (ProviderError "cannot rebuild"), n)
       else (Ok tt, n + 1) |}.

(** The second installation: the manifest lists [p1] and [p2] only;
    [counter] is the provider above, [crash] answers every query with
    an error of its own, [sloppy] returns an item without relevance and
    [twin] an item of relevance 2; importing [ghost] raises [KeyError];
    every other module is that of the small installation. *)
Definition more_modules (name : string) : res PyModule :=
  if String.eqb name "indelve.providers.__init__" then
    Ok (PackageInit ["p1"; "p2"])
  else if String.eqb name "indelve.providers.counter" then
    Ok (ProviderModule {| description := full_description;
                          construct := Ok counter |})
  else if String.eqb name "indelve.providers.crash" then
    Ok (ProviderModule {| description := full_description;
                          construct := Ok (stub (Raise (ProviderError "crashed"))) |})
  else if String.eqb name "indelve.providers.sloppy" then
    Ok (ProviderModule {| description := full_description;
                          construct := Ok (stub (Ok [{[ "name" := FStr "x" ]}])) |})
  else if String.eqb name "indelve.providers.twin" then
    Ok (ProviderModule {| description := full_description;
                          construct := Ok (stub (Ok [item 2 "z"])) |})
  else if String.eqb name "indelve.providers.ghost" then
    Raise (KeyError "ghost")
  else example_modules name.

(** The orchestrator built by [Indelve(providers)] in the second
    installation. *)
Definition built_more (providers : list string) : World :=
  snd (Indelve_init more_modules (PyList (map PyStr providers)) empty_world).

(** An installation without the provider package. *)
Definition no_modules (name : string) : res PyModule :=
  Raise (ImportError ("No module named " +:+ name)).

(** * Properties *)

(** ** The natural ordering is a total preorder *)

Lemma ascii_compare_refl (a : ascii) : Ascii.compare a a = Eq.
Proof. unfold Ascii.compare. apply N.compare_refl. Qed.

Lemma ascii_compare_lt_trans (a b c : ascii) :
  Ascii.compare a b = Lt -> Ascii.compare b c = Lt -> Ascii.compare a c = Lt.
Proof.
  unfold Ascii.compare. rewrite !N.compare_lt_iff. apply N.lt_trans.
Qed.

Lemma string_compare_refl (s : string) : String.compare s s = Eq.
Proof.
  induction s as [|a s IH]; simpl; [reflexivity|].
  now rewrite ascii_compare_refl.
Qed.

Lemma string_compare_lt_trans (s t u : string) :
  String.compare s t = Lt -> String.compare t u = Lt -> String.compare s u = Lt.
Proof.
  revert t u. induction s as [|a s IH]; intros [|b t] [|c u]; simpl; try congruence.
  destruct (Ascii.compare a b) eqn:Hab; try congruence;
    destruct (Ascii.compare b c) eqn:Hbc; try congruence; intros Hst Htu.
  - apply Ascii.compare_eq_iff in Hab, Hbc. subst.
    rewrite ascii_compare_refl. eauto.
  - apply Ascii.compare_eq_iff in Hab. subst. now rewrite Hbc.
  - apply Ascii.compare_eq_iff in Hbc. subst. now rewrite Hab.
  - now rewrite (ascii_compare_lt_trans a b c).
Qed.

Lemma string_leb_refl (s : string) : String.leb s s = true.
Proof. unfold String.leb. now rewrite string_compare_refl. Qed.

Lemma string_leb_trans (s t u : string) :
  String.leb s t = true -> String.leb t u = true -> String.leb s u = true.
Proof.
  unfold String.leb.
  destruct (String.compare s t) eqn:Hst; try discriminate;
    destruct (String.compare t u) eqn:Htu; try discriminate; intros _ _.
  - apply String.compare_eq_iff in Hst, Htu. subst. now rewrite string_compare_refl.
  - apply String.compare_eq_iff in Hst. subst. now rewrite Htu.
  - apply String.compare_eq_iff in Htu. subst. now rewrite Hst.
  - now rewrite (string_compare_lt_trans s t u).
Qed.

Lemma field_leb_total (a b : field) : field_leb a b = true \/ field_leb b a = true.
Proof.
  destruct a as [x|s], b as [y|t]; simpl; auto.
  - destruct (Z.leb_spec x y); [auto|]. right. apply Z.leb_le. lia.
  - apply String.leb_total.
Qed.

Lemma field_leb_trans (a b c : field) :
  field_leb a b = true -> field_leb b c = true -> field_leb a c = true.
Proof.
  destruct a as [x|s], b as [y|t], c as [z|u]; simpl; try congruence.
  - rewrite !Z.leb_le. lia.
  - apply string_leb_trans.
Qed.

Lemma field_leb_false (a b : field) : field_leb a b = false -> field_leb b a = true.
Proof. destruct (field_leb_total a b); congruence. Qed.

#[global] Instance field_le_trans : Transitive field_le.
Proof. intros a b c. apply field_leb_trans. Qed.

#[global] Instance field_le_total : Total field_le.
Proof. intros a b. apply field_leb_total. Qed.

(** ** The sort is a stable ascending sort *)

Section SortFacts.
Context {A : Type}.
Implicit Types (x : field * A) (l : list (field * A)).

Lemma insert_keyed_perm x l : Permutation (insert_keyed x l) (x :: l).
Proof.
  induction l as [|y l IH]; simpl; [reflexivity|].
  destruct (field_leb (fst x) (fst y)); [reflexivity|].
  rewrite IH. apply perm_swap.
Qed.

Lemma sort_keyed_perm l : Permutation (sort_keyed l) l.
Proof.
  induction l as [|x l IH]; simpl; [reflexivity|].
  rewrite insert_keyed_perm. now constructor.
Qed.

Lemma insert_keyed_hd x y l :
  key_le y x -> HdRel key_le y l -> HdRel key_le y (insert_keyed x l).
Proof.
  intros Hyx Hy. destruct l as [|z l]; simpl; [now constructor|].
  destruct (field_leb (fst x) (fst z)); constructor; [assumption|].
  now inversion Hy.
Qed.

Lemma insert_keyed_sorted x l :
  Sorted key_le l -> Sorted key_le (insert_keyed x l).
Proof.
  induction 1 as [|y l Hl IH Hy]; simpl; [repeat constructor|].
  destruct (field_leb (fst x) (fst y)) eqn:Hxy.
  - repeat constructor; assumption.
  - constructor; [assumption|].
    apply insert_keyed_hd; [|assumption].
    now apply field_leb_false.
Qed.

Lemma sort_keyed_sorted l : Sorted key_le (sort_keyed l).
Proof.
  induction l as [|x l IH]; simpl; [constructor|].
  now apply insert_keyed_sorted.
Qed.

(** Stability: the elements of any one key keep their order. *)
Lemma insert_keyed_filter (P : field -> bool) x l :
  (forall a b, P a = true -> P b = true ->
               field_leb a b = true /\ field_leb b a = true) ->
  filter (fun y => P (fst y) = true) (insert_keyed x l)
  = filter (fun y => P (fst y) = true) (x :: l).
Proof.
  intros HP. induction l as [|y l IH]; simpl; [reflexivity|].
  destruct (field_leb (fst x) (fst y)) eqn:Hxy; [reflexivity|].
  rewrite !filter_cons in *. rewrite IH.
  destruct (decide (P (fst x) = true)) as [Hx|Hx];
    destruct (decide (P (fst y) = true)) as [Hy|Hy]; try reflexivity.
  destruct (HP _ _ Hx Hy). congruence.
Qed.

Lemma sort_keyed_filter (P : field -> bool) l :
  (forall a b, P a = true -> P b = true ->
               field_leb a b = true /\ field_leb b a = true) ->
  filter (fun y => P (fst y) = true) (sort_keyed l)
  = filter (fun y => P (fst y) = true) l.
Proof.
  intros HP. induction l as [|x l IH]; simpl; [reflexivity|].
  rewrite insert_keyed_filter by assumption.
  rewrite !filter_cons, IH. reflexivity.
Qed.

Variable key : A -> res field.

Lemma decorate_ok (l : list A) kl :
  decorate key l = Ok kl ->
  map snd kl = l /\ Forall (fun p => key (snd p) = Ok (fst p)) kl.
Proof.
  revert kl. induction l as [|a l IH]; simpl; intros kl.
  - intros [= <-]. split; constructor.
  - destruct (key a) as [k|e] eqn:Hk; [|discriminate].
    destruct (decorate key l) as [kl'|e]; [|discriminate].
    intros [= <-]. destruct (IH kl' eq_refl) as [Hm Hf].
    simpl. split; [now f_equal|]. now constructor.
Qed.

Lemma decorate_total (l : list A) :
  Forall (fun a => exists k, key a = Ok k) l -> exists kl, decorate key l = Ok kl.
Proof.
  induction 1 as [|a l [k Hk] _ [kl IH]]; simpl; [eauto|].
  rewrite Hk, IH. eauto.
Qed.

Lemma decorate_raise (l : list A) e :
  decorate key l = Raise e -> exists a, In a l /\ key a = Raise e.
Proof.
  induction l as [|a l IH]; simpl; [discriminate|].
  destruct (key a) as [k|e'] eqn:Hk.
  - destruct (decorate key l); [discriminate|].
    intros [= ->]. destruct IH as (b & ? & ?); eauto.
  - intros [= ->]. eauto.
Qed.

Lemma list_sort_perm (l sorted : list A) :
  list_sort key l = Ok sorted -> Permutation sorted l.
Proof.
  unfold list_sort. destruct (decorate key l) as [kl|] eqn:Hd; [|discriminate].
  intros [= <-]. destruct (decorate_ok _ _ Hd) as [<- _].
  apply Permutation_map, sort_keyed_perm.
Qed.

Lemma list_sort_sorted (l sorted : list A) :
  list_sort key l = Ok sorted -> Sorted (ascending key) sorted.
Proof.
  unfold list_sort. destruct (decorate key l) as [kl|] eqn:Hd; [|discriminate].
  intros [= <-]. destruct (decorate_ok _ _ Hd) as [_ Hk].
  assert (Hk' : Forall (fun p => key (snd p) = Ok (fst p)) (sort_keyed kl)).
  { now rewrite sort_keyed_perm. }
  pose proof (sort_keyed_sorted kl) as Hs.
  induction Hs as [|p l' Hl' IH Hp]; simpl; [constructor|].
  inversion Hk' as [|? ? Hkp Hkl]; subst.
  constructor; [auto|].
  destruct Hp as [|q l'' Hpq]; simpl; constructor.
  inversion Hkl; subst. exists (fst p), (fst q). auto.
Qed.

Lemma list_sort_total (l : list A) :
  Forall (fun a => exists k, key a = Ok k) l -> exists sorted, list_sort key l = Ok sorted.
Proof.
  intros H. destruct (decorate_total l H) as [kl Hkl].
  unfold list_sort. rewrite Hkl. eauto.
Qed.
End SortFacts.

(** ** Frame properties of the primitive effects *)

Ltac run_monad :=
  unfold mbind, M_bind, mret, M_ret, ret, raise, lift, try_except, log, warn,
    get_instances, set_instances, lookup_instance, import_module, assert_items in *;
  simpl in *.

Lemma call_search_fst r q w : fst (call_search r q w) = answer w q r.
Proof.
  unfold call_search, answer.
  destruct (p_search (heap w r) (p_data (heap w r)) q); reflexivity.
Qed.

Lemma call_search_snd r q w :
  let w' := snd (call_search r q w) in
  providerInstances w' = providerInstances w /\
  next_ref w' = next_ref w /\
  trace w' = trace w ++ [EvSearch r q] /\
  forall r', r' <> r -> heap w' r' = heap w r'.
Proof.
  unfold call_search.
  destruct (p_search (heap w r) (p_data (heap w r)) q); simpl.
  repeat split. intros r' Hr'. apply Nat.eqb_neq in Hr'. now rewrite Hr'.
Qed.

Lemma call_refresh_snd r force w :
  let w' := snd (call_refresh r force w) in
  providerInstances w' = providerInstances w /\
  next_ref w' = next_ref w /\
  trace w' = trace w ++ [EvRefresh r force] /\
  forall r', r' <> r -> heap w' r' = heap w r'.
Proof.
  unfold call_refresh.
  destruct (p_refresh (heap w r) (p_data (heap w r)) force); simpl.
  repeat split. intros r' Hr'. apply Nat.eqb_neq in Hr'. now rewrite Hr'.
Qed.

Lemma for_each_cons {A} (body : A -> M unit) x l w :
  for_each body (x :: l) w
  = match body x w with
    | (Ok _, w') => for_each body l w'
    | (Raise e, w') => (Raise e, w')
    end.
Proof. reflexivity. Qed.

Lemma answer_ext w w' q r : heap w' r = heap w r -> answer w' q r = answer w q r.
Proof. unfold answer. now intros ->. Qed.

(** ** Dicts *)

Lemma dict_get_entries {V} (d : list (string * V)) :
  NoDup (dict_keys d) ->
  Forall (fun e => dict_get (fst e) d = Some (snd e)) d.
Proof.
  unfold dict_keys. induction d as [|[k v] d IH]; simpl; [constructor|].
  rewrite NoDup_cons. intros [Hk Hd]. constructor; simpl.
  - now rewrite String.eqb_refl.
  - specialize (IH Hd). rewrite Forall_forall in *. intros [k' v'] Hin. simpl.
    destruct (String.eqb k' k) eqn:E.
    + apply String.eqb_eq in E. subst. exfalso. apply Hk.
      apply list_elem_of_fmap. now exists (k, v').
    + now apply (IH (k', v')).
Qed.

(** ** The loop of [search] *)

Section SearchFacts.
Variable isItemDict : Item -> bool.

(** The loop never touches the instance table or the allocator. *)
Lemma search_loop_frame q names : forall items w,
  let w' := snd (search_loop isItemDict q names items w) in
  providerInstances w' = providerInstances w /\ next_ref w' = next_ref w.
Proof.
  induction names as [|name rest IH]; intros items w; simpl; [auto|].
  run_monad.
  destruct (dict_get name (providerInstances w)) as [r|]; simpl; [|auto].
  pose proof (call_search_snd r q w) as (Hi & Hn & _).
  destruct (call_search r q w) as [[results|e] w1]; simpl in *.
  - destruct (forallb isItemDict items); simpl; [|auto].
    specialize (IH (items ++ results) w1). simpl in IH.
    destruct IH as [IH1 IH2]. split; congruence.
  - destruct (is_value_error e); simpl; [|auto].
    specialize (IH items w1). simpl in IH.
    destruct IH as [IH1 IH2]. split; congruence.
Qed.

(** The loop computes [collect] on the answers of the providers. *)
Lemma search_loop_collect q entries : forall items w,
  NoDup (map snd entries) ->
  Forall (fun e => dict_get (fst e) (providerInstances w) = Some (snd e)) entries ->
  fst (search_loop isItemDict q (map fst entries) items w)
  = collect isItemDict (map (fun e => answer w q (snd e)) entries) items.
Proof.
  induction entries as [|[name r] rest IH]; intros items w Hnd Hget; simpl; [reflexivity|].
  inversion Hnd as [|? ? Hr Hnd']; subst.
  inversion Hget as [|? ? Hname Hget']; subst. simpl in Hname.
  run_monad. rewrite Hname.
  pose proof (call_search_fst r q w) as Hout.
  pose proof (call_search_snd r q w) as (Hi & _ & _ & Hheap).
  destruct (call_search r q w) as [out w1]; simpl in *. subst out.
  assert (Hsame : map (fun e => answer w1 q (snd e)) rest
                  = map (fun e => answer w q (snd e)) rest).
  { apply map_ext_in. intros [n' r'] Hin. simpl. apply answer_ext, Hheap.
    intros ->. apply Hr. apply list_elem_of_In, in_map_iff. now exists (n', r). }
  assert (Hget1 : Forall (fun e => dict_get (fst e) (providerInstances w1) = Some (snd e)) rest).
  { now rewrite Hi. }
  destruct (answer w q r) as [results|e]; simpl.
  - destruct (forallb isItemDict items); simpl; [|reflexivity].
    rewrite <- Hsame. now apply IH.
  - destruct (is_value_error e); simpl; [|reflexivity].
    rewrite <- Hsame. now apply IH.
Qed.

(** When the loop completes, every provider has been called once, in
    the order of the table. *)
Lemma search_loop_trace q entries : forall items w,
  Forall (fun e => dict_get (fst e) (providerInstances w) = Some (snd e)) entries ->
  (exists r, fst (search_loop isItemDict q (map fst entries) items w) = Ok r) ->
  trace (snd (search_loop isItemDict q (map fst entries) items w))
  = trace w ++ map (fun e => EvSearch (snd e) q) entries.
Proof.
  induction entries as [|[name r] rest IH]; intros items w Hget; simpl.
  - intros _. now rewrite app_nil_r.
  - inversion Hget as [|? ? Hname Hget']; subst. simpl in Hname.
    run_monad. rewrite Hname.
    pose proof (call_search_snd r q w) as (Hi & _ & Ht & _).
    destruct (call_search r q w) as [[results|e] w1]; simpl in *.
    + destruct (forallb isItemDict items); simpl; [|intros [? [=]]].
      intros Hok. rewrite IH; [|now rewrite Hi|assumption].
      now rewrite Ht, <- app_assoc.
    + destruct (is_value_error e); simpl; [|intros [? [=]]].
      intros Hok. rewrite IH; [|now rewrite Hi|assumption].
      now rewrite Ht, <- app_assoc.
Qed.

(** Facts about [collect]. *)

Lemma collect_inv outs : forall items r,
  collect isItemDict outs items = Ok r ->
  r = items ++ flat_map results_of outs /\
  Forall (fun out => match out with
                     | Ok _ => True
                     | Raise e => is_value_error e = true
                     end) outs.
Proof.
  induction outs as [|[results|e] outs IH]; simpl; intros items r.
  - intros [= <-]. now rewrite app_nil_r.
  - destruct (forallb isItemDict items); [|discriminate].
    intros H. destruct (IH _ _ H) as [-> Hf]. rewrite <- app_assoc. auto.
  - destruct (is_value_error e) eqn:He; [|intros [=]].
    intros H. destruct (IH _ _ H) as [-> Hf]. auto.
Qed.

Lemma forallb_Forall_true {A} (f : A -> bool) (l : list A) :
  Forall (fun a => f a = true) l -> forallb f l = true.
Proof. induction 1; simpl; [reflexivity|]. apply andb_true_intro. auto. Qed.

Lemma collect_ok outs : forall items,
  Forall (well_behaved isItemDict) outs ->
  Forall (fun a => isItemDict a = true) items ->
  collect isItemDict outs items = Ok (items ++ flat_map results_of outs).
Proof.
  induction outs as [|[results|e] outs IH]; simpl; intros items Houts Hitems.
  - now rewrite app_nil_r.
  - inversion Houts as [|? ? Hres Houts']; subst. simpl in Hres.
    rewrite (forallb_Forall_true _ _ Hitems).
    rewrite IH; [now rewrite <- app_assoc|assumption|].
    apply Forall_app. auto.
  - inversion Houts as [|? ? He Houts']; subst. simpl in He. rewrite He.
    now apply IH.
Qed.
End SearchFacts.

(** ** Dict updates *)

Section DictFacts.
Context {V : Type}.
Implicit Types (d : list (string * V)).

Lemma dict_get_set_eq k v d : dict_get k (dict_set k v d) = Some v.
Proof.
  induction d as [|[k' v'] d IH]; simpl.
  - now rewrite String.eqb_refl.
  - destruct (String.eqb k k') eqn:E; simpl; now rewrite E.
Qed.

Lemma dict_get_set_ne k k' v d :
  k' <> k -> dict_get k' (dict_set k v d) = dict_get k' d.
Proof.
  intros Hne. induction d as [|[k0 v0] d IH]; simpl.
  - apply String.eqb_neq in Hne. now rewrite Hne.
  - destruct (String.eqb k k0) eqn:E; simpl; [|now rewrite IH].
    apply String.eqb_eq in E. subst k0.
    apply String.eqb_neq in Hne. now rewrite Hne.
Qed.

Lemma dict_keys_set k v d :
  dict_keys (dict_set k v d)
  = if decide (k ∈ dict_keys d) then dict_keys d else dict_keys d ++ [k].
Proof.
  unfold dict_keys. induction d as [|[k' v'] d IH].
  - simpl dict_set. simpl map.
    destruct (decide (k ∈ [])) as [Hin|_]; [|reflexivity].
    now apply not_elem_of_nil in Hin.
  - simpl dict_set. destruct (String.eqb k k') eqn:E.
    + apply String.eqb_eq in E. subst. simpl map.
      destruct (decide (k' ∈ k' :: map fst d)) as [_|Hin]; [reflexivity|].
      exfalso. apply Hin, list_elem_of_here.
    + apply String.eqb_neq in E. simpl map. rewrite IH.
      destruct (decide (k ∈ map fst d)) as [Hin|Hin];
        destruct (decide (k ∈ k' :: map fst d)) as [Hin'|Hin'];
        try reflexivity; exfalso; rewrite elem_of_cons in Hin'; tauto.
Qed.

Lemma dict_keys_set_elem k k' v d :
  k' ∈ dict_keys (dict_set k v d) <-> k' = k \/ k' ∈ dict_keys d.
Proof.
  rewrite dict_keys_set. destruct (decide (k ∈ dict_keys d)) as [Hin|Hin].
  - split; [auto|]. intros [->|?]; assumption.
  - rewrite elem_of_app, list_elem_of_singleton. tauto.
Qed.

Lemma dict_keys_set_NoDup k v d :
  NoDup (dict_keys d) -> NoDup (dict_keys (dict_set k v d)).
Proof.
  intros Hd. rewrite dict_keys_set. destruct (decide (k ∈ dict_keys d)) as [Hin|Hin].
  - assumption.
  - apply NoDup_app. repeat split; [assumption| |apply NoDup_singleton].
    intros x Hx Hx'. apply list_elem_of_singleton in Hx'. now subst.
Qed.

Lemma dict_values_set_elem k v v' d :
  v' ∈ map snd (dict_set k v d) -> v' = v \/ v' ∈ map snd d.
Proof.
  induction d as [|[k0 v0] d IH]; simpl.
  - rewrite list_elem_of_singleton. auto.
  - destruct (String.eqb k k0); simpl; rewrite !elem_of_cons; intuition.
Qed.

Lemma dict_values_set_NoDup k v d :
  v ∉ map snd d -> NoDup (map snd d) -> NoDup (map snd (dict_set k v d)).
Proof.
  induction d as [|[k0 v0] d IH]; simpl; intros Hv Hd.
  - apply NoDup_singleton.
  - rewrite not_elem_of_cons in Hv. destruct Hv as [Hv0 Hv].
    apply NoDup_cons in Hd. destruct Hd as [Hv0' Hd].
    destruct (String.eqb k k0); simpl; apply NoDup_cons.
    + split; assumption.
    + split; [|auto]. intros Hin.
      apply dict_values_set_elem in Hin. destruct Hin; congruence.
Qed.

Lemma dict_get_values k v d : dict_get k d = Some v -> v ∈ map snd d.
Proof.
  induction d as [|[k0 v0] d IH]; simpl; [discriminate|].
  destruct (String.eqb k k0).
  - intros [= ->]. apply list_elem_of_here.
  - intros H. apply list_elem_of_further. auto.
Qed.

Lemma dict_get_keys k d : is_Some (dict_get k d) <-> k ∈ dict_keys d.
Proof.
  unfold dict_keys. induction d as [|[k0 v0] d IH]; simpl.
  - split; [intros [? [=]]|]. intros H. now apply not_elem_of_nil in H.
  - destruct (String.eqb k k0) eqn:E.
    + apply String.eqb_eq in E. subst. split; [|eauto].
      intros _. apply list_elem_of_here.
    + apply String.eqb_neq in E. rewrite IH, elem_of_cons. tauto.
Qed.
End DictFacts.

(** ** Construction *)

Section InitFacts.
Variable import_table : string -> res PyModule.

Local Abbreviation loads' := (loads import_table).
Local Abbreviation unavailable' := (unavailable import_table).
Local Abbreviation load_provider' := (load_provider import_table).
Local Abbreviation loaded' := (loaded import_table).

Lemma load_provider_unavailable id w :
  unavailable' id = true ->
  load_provider' (PyStr id) w
  = (Ok tt, record (EvWarn id ProviderLoadWarning)
                   (record (EvImport (provider_package +:+ id)) w)).
Proof.
  unfold unavailable, load_provider. run_monad.
  destruct (import_table (provider_package +:+ id)) as [m|e]; [discriminate|].
  now intros ->.
Qed.

Lemma load_provider_loads id o w :
  loads' id = Some o ->
  load_provider' (PyStr id) w
  = (Ok tt,
     {| providerInstances := dict_set id (next_ref w) (providerInstances w);
        heap := fun r => if Nat.eqb r (next_ref w) then o else heap w r;
        next_ref := S (next_ref w);
        trace := trace w ++ [EvImport (provider_package +:+ id)] |}).
Proof.
  unfold loads, load_provider, new_Provider, get_Provider, alloc.
  run_monad.
  destruct (import_table (provider_package +:+ id)) as [[all|cls]|e]; try discriminate.
  destruct (construct cls) as [o'|e]; [|discriminate].
  now intros [= ->].
Qed.

Lemma loads_not_unavailable id o : loads' id = Some o -> unavailable' id = false.
Proof.
  unfold loads, unavailable.
  now destruct (import_table (provider_package +:+ id)).
Qed.

Lemma unavailable_not_loads id : unavailable' id = true -> loads' id = None.
Proof.
  unfold loads, unavailable.
  now destruct (import_table (provider_package +:+ id)).
Qed.

Lemma loaded_nil w : loaded' [] w w.
Proof.
  split; try tauto; try reflexivity.
  - intros k. split; [auto|]. intros [?|[H _]]; [assumption|].
    now apply not_elem_of_nil in H.
  - intros id o H. now apply not_elem_of_nil in H.
  - simpl. now rewrite app_nil_r.
  - simpl. now rewrite app_nil_r.
Qed.

Lemma loaded_skip id ids w w' :
  unavailable' id = true ->
  loaded' ids (record (EvWarn id ProviderLoadWarning)
                     (record (EvImport (provider_package +:+ id)) w)) w' ->
  loaded' (id :: ids) w w'.
Proof.
  intros Hid [Hk Ho Hi Hh Hn Hw Him Hs Ht]. simpl in *.
  pose proof (unavailable_not_loads _ Hid) as Hnone.
  split.
  - intros k. rewrite Hk, elem_of_cons. split; [tauto|].
    intros [?|[[->|?] Hl]]; [tauto| |tauto].
    rewrite Hnone in Hl. now destruct Hl.
  - intros k Hnot. apply Ho. intros [? ?]. apply Hnot. split; [|assumption].
    now apply list_elem_of_further.
  - intros id' o. rewrite elem_of_cons. intros [->|Hin] Hl; [congruence|].
    now apply Hi.
  - assumption.
  - assumption.
  - rewrite Hw. unfold warnings. rewrite !omap_app. simpl.
    rewrite filter_cons, decide_True by assumption.
    simpl. now rewrite app_nil_r, <- app_assoc.
  - rewrite Him. unfold imports. rewrite !omap_app. simpl.
    now rewrite app_nil_r, <- app_assoc.
  - rewrite Hs. unfold searched. rewrite !omap_app. simpl.
    now rewrite !app_nil_r.
  - assumption.
Qed.
Lemma table_ok_alloc id w :
  table_ok w ->
  table_ok {| providerInstances := dict_set id (next_ref w) (providerInstances w);
              heap := heap w;
              next_ref := S (next_ref w);
              trace := trace w |}.
Proof.
  intros (Hk & Hv & Hlt). unfold table_ok. simpl.
  assert (Hfresh : next_ref w ∉ map snd (providerInstances w)).
  { intros Hin. rewrite Forall_forall in Hlt. apply Hlt in Hin. lia. }
  split; [now apply dict_keys_set_NoDup|].
  split; [now apply dict_values_set_NoDup|].
  rewrite Forall_forall in *. intros r Hr.
  apply dict_values_set_elem in Hr. destruct Hr as [->|Hr]; [lia|].
  apply Hlt in Hr. lia.
Qed.

Lemma loaded_load id o ids w w' :
  loads' id = Some o ->
  loaded' ids
    {| providerInstances := dict_set id (next_ref w) (providerInstances w);
       heap := fun r => if Nat.eqb r (next_ref w) then o else heap w r;
       next_ref := S (next_ref w);
       trace := trace w ++ [EvImport (provider_package +:+ id)] |} w' ->
  loaded' (id :: ids) w w'.
Proof.
  intros Hid [Hk Ho Hi Hh Hn Hw Him Hs Ht]. simpl in *.
  pose proof (loads_not_unavailable _ _ Hid) as Hav.
  assert (Hsome : is_Some (loads' id)) by (rewrite Hid; eauto).
  split.
  - intros k. rewrite Hk, dict_keys_set_elem, elem_of_cons.
    split; [|tauto]. intros [[->|?]|[? ?]]; auto.
  - intros k Hnot. rewrite Ho.
    + apply dict_get_set_ne. intros ->. apply Hnot. split; [|assumption].
      apply list_elem_of_here.
    + intros [? ?]. apply Hnot. split; [|assumption]. now apply list_elem_of_further.
  - intros id' o' Hin Hl.
    destruct (decide (id' ∈ ids)) as [Hids|Hids]; [now apply Hi|].
    apply elem_of_cons in Hin. destruct Hin as [->|Hin]; [|contradiction].
    exists (next_ref w). split.
    + rewrite Ho by tauto. apply dict_get_set_eq.
    + rewrite Hh by lia. rewrite Nat.eqb_refl. congruence.
  - intros r Hr. rewrite Hh by lia.
    destruct (Nat.eqb_spec r (next_ref w)); [lia|reflexivity].
  - lia.
  - rewrite Hw. unfold warnings. rewrite !omap_app. simpl.
    rewrite filter_cons, decide_False by congruence.
    now rewrite app_nil_r.
  - rewrite Him. unfold imports. rewrite !omap_app. simpl.
    now rewrite <- app_assoc.
  - rewrite Hs. unfold searched. rewrite !omap_app. simpl.
    now rewrite app_nil_r.
  - intros Hok. apply Ht. now apply (table_ok_alloc id) in Hok.
Qed.

(** The loop of [__init__] over identifiers that are each loadable or
    unavailable runs to completion. *)
Lemma load_all ids : forall w,
  Forall (fun id => is_Some (loads' id) \/ unavailable' id = true) ids ->
  exists w', for_each load_provider' (map PyStr ids) w = (Ok tt, w') /\
             loaded' ids w w'.
Proof.
  induction ids as [|id ids IH]; intros w Hids.
  - exists w. split; [reflexivity|apply loaded_nil].
  - inversion Hids as [|? ? Hid Hids']; subst.
    cbn [map]. rewrite for_each_cons.
    destruct Hid as [[o Ho]|Hun].
    + rewrite (load_provider_loads _ _ _ Ho).
      edestruct IH as (w' & Hrun & Hpost); [exact Hids'|].
      exists w'. split; [exact Hrun|]. eapply loaded_load; eassumption.
    + rewrite (load_provider_unavailable _ _ Hun).
      edestruct IH as (w' & Hrun & Hpost); [exact Hids'|].
      exists w'. split; [exact Hrun|]. eapply loaded_skip; eassumption.
Qed.
End InitFacts.

(** ** Methods that leave the instance table alone *)

Section FrameFacts.
Variable import_table : string -> res PyModule.
Variable isItemDict : Item -> bool.

Lemma same_table_refl w : same_table w w.
Proof. now split. Qed.

Lemma same_table_trans w1 w2 w3 :
  same_table w1 w2 -> same_table w2 w3 -> same_table w1 w3.
Proof. intros [? ?] [? ?]. split; congruence. Qed.

Lemma refresh_loop_frame force names : forall w,
  same_table w
    (snd (for_each (fun name => inst ← lookup_instance name; call_refresh inst force)
                   names w)).
Proof.
  induction names as [|name rest IH]; intros w; [apply same_table_refl|].
  rewrite for_each_cons. run_monad.
  destruct (dict_get name (providerInstances w)) as [r|]; simpl;
    [|apply same_table_refl].
  pose proof (call_refresh_snd r force w) as (Hi & Hn & _).
  destruct (call_refresh r force w) as [[[]|e] w1]; simpl in *.
  - eapply same_table_trans; [|apply IH]. now split.
  - now split.
Qed.

Lemma refresh_frame force w : same_table w (snd (refresh force w)).
Proof. unfold refresh. run_monad. apply refresh_loop_frame. Qed.

Lemma search_frame query w : same_table w (snd (search isItemDict query w)).
Proof.
  unfold search. destruct query as [|n|q|l]; try apply same_table_refl.
  destruct (Nat.eqb (String.length q) 0); [apply same_table_refl|].
  run_monad.
  pose proof (search_loop_frame isItemDict q (dict_keys (providerInstances w)) [] w) as H.
  destruct (search_loop isItemDict q (dict_keys (providerInstances w)) [] w)
    as [[items|e] w1]; simpl in *; exact H.
Qed.

Lemma getProviderDescription_frame provider w :
  same_table w (snd (getProviderDescription import_table provider w)).
Proof.
  unfold getProviderDescription, get_Provider.
  destruct provider as [|n|id|l]; try apply same_table_refl.
  run_monad.
  destruct (import_table (provider_package +:+ id)) as [[all|cls]|e]; simpl.
  - now split.
  - destruct (negb (has_key "short" (description cls))
              || negb (has_key "long" (description cls))); now split.
  - destruct (is_import_error e); now split.
Qed.

Lemma describe_all_frame providerList : forall providerDict w,
  same_table w (snd (describe_all import_table providerList providerDict w)).
Proof.
  induction providerList as [|provider rest IH]; intros providerDict w;
    [apply same_table_refl|].
  cbn [describe_all]. unfold mbind, M_bind.
  pose proof (getProviderDescription_frame (PyStr provider) w) as H.
  destruct (getProviderDescription import_table (PyStr provider) w) as [[d|e] w1];
    simpl in *; [|exact H].
  eapply same_table_trans; [exact H|apply IH].
Qed.

Lemma listProviders_frame descriptions w :
  same_table w (snd (listProviders import_table descriptions w)).
Proof.
  unfold listProviders, get_all. run_monad.
  destruct (import_table (provider_package +:+ "__init__")) as [[all|cls]|e];
    simpl; try now split.
  destruct descriptions; simpl; [|now split].
  match goal with |- context [describe_all _ ?l ?d ?w0] =>
    pose proof (describe_all_frame l d w0) as H;
    destruct (describe_all import_table l d w0) as [[pd|e] w1]
  end; simpl in *; exact H.
Qed.

Lemma table_ok_same w w' : same_table w w' -> table_ok w -> table_ok w'.
Proof. intros [Hi Hn]. unfold table_ok. now rewrite Hi, Hn. Qed.
End FrameFacts.

(** ** Every live orchestrator has a well-formed, non-empty table *)

Section ConstructedFacts.
Variable import_table : string -> res PyModule.
Variable isItemDict : Item -> bool.

Lemma load_provider_table_ok provider w w1 :
  load_provider import_table provider w = (Ok tt, w1) ->
  table_ok w -> table_ok w1.
Proof.
  unfold load_provider, new_Provider, get_Provider, alloc.
  destruct provider as [|n|id|l]; try (run_monad; discriminate).
  run_monad.
  destruct (import_table (provider_package +:+ id)) as [[all|cls]|e]; simpl.
  - discriminate.
  - destruct (construct cls) as [o|e]; simpl; [|discriminate].
    intros [= <-] Hok. apply (table_ok_alloc id) in Hok. exact Hok.
  - destruct (is_import_or_key_error e); simpl; [|discriminate].
    now intros [= <-].
Qed.

Lemma load_loop_table_ok providers : forall w w',
  for_each (load_provider import_table) providers w = (Ok tt, w') ->
  table_ok w -> table_ok w'.
Proof.
  induction providers as [|provider rest IH]; intros w w'.
  - now intros [= <-].
  - rewrite for_each_cons.
    destruct (load_provider import_table provider w) as [[[]|e] w1] eqn:Hstep;
      [|discriminate].
    intros Hrest Hok. eapply IH; [exact Hrest|].
    eapply load_provider_table_ok; eassumption.
Qed.

Lemma table_ok_empty w :
  table_ok {| providerInstances := []; heap := heap w;
              next_ref := next_ref w; trace := trace w |}.
Proof. repeat split; simpl; constructor. Qed.

(** The tail of [__init__], after the identifier list is resolved. *)
Lemma Indelve_init_tail providers w :
  (set_instances [];;
   for_each (load_provider import_table) providers;;
   d ← get_instances;
   if Nat.eqb (length d) 0 then raise NoProvidersError else mret tt) w
  = match for_each (load_provider import_table) providers
            {| providerInstances := []; heap := heap w;
               next_ref := next_ref w; trace := trace w |} with
    | (Ok _, w') =>
        (if Nat.eqb (length (providerInstances w')) 0
         then Raise NoProvidersError else Ok tt, w')
    | (Raise e, w') => (Raise e, w')
    end.
Proof.
  run_monad.
  destruct (for_each _ _ _) as [[[]|e] w']; [|reflexivity].
  now destruct (Nat.eqb (length (providerInstances w')) 0).
Qed.

Lemma Indelve_init_table_ok providers w0 w :
  Indelve_init import_table providers w0 = (Ok tt, w) ->
  table_ok w /\ providerInstances w <> [].
Proof.
  unfold Indelve_init. unfold mbind at 1. unfold M_bind at 1.
  destruct (resolve_providers import_table providers w0)
    as [[ids|e] w1]; [|discriminate].
  rewrite Indelve_init_tail.
  destruct (for_each _ _ _) as [[[]|e] w'] eqn:Hloop; [|discriminate].
  destruct (Nat.eqb (length (providerInstances w')) 0) eqn:Hlen; [discriminate|].
  intros [= <-]. split.
  - eapply load_loop_table_ok; [exact Hloop|apply table_ok_empty].
  - intros Hnil. rewrite Hnil in Hlen. discriminate.
Qed.

Lemma constructed_table_ok w :
  constructed import_table isItemDict w ->
  table_ok w /\ providerInstances w <> [].
Proof.
  induction 1 as [providers w0 w Hinit
                 |force w _ [IH1 IH2]
                 |query w _ [IH1 IH2]
                 |descriptions w _ [IH1 IH2]
                 |provider w _ [IH1 IH2]].
  - eapply Indelve_init_table_ok; eassumption.
  - pose proof (refresh_frame force w) as Hf.
    split; [eapply table_ok_same; eassumption|]. destruct Hf as [-> _]. exact IH2.
  - pose proof (search_frame isItemDict query w) as Hf.
    split; [eapply table_ok_same; eassumption|]. destruct Hf as [-> _]. exact IH2.
  - pose proof (listProviders_frame import_table descriptions w) as Hf.
    split; [eapply table_ok_same; eassumption|]. destruct Hf as [-> _]. exact IH2.
  - pose proof (getProviderDescription_frame import_table provider w) as Hf.
    split; [eapply table_ok_same; eassumption|]. destruct Hf as [-> _]. exact IH2.
Qed.
End ConstructedFacts.

(** ** What [search] computes *)

Section SearchSpec.
Variable isItemDict : Item -> bool.

Lemma nonempty_length (q : string) :
  q <> EmptyString -> Nat.eqb (String.length q) 0 = false.
Proof. destruct q; [congruence|reflexivity]. Qed.

(** On a valid query, [search] sorts what the loop collects. *)
Lemma search_collect q w :
  q <> EmptyString -> table_ok w ->
  fst (search isItemDict (PyStr q) w)
  = match collect isItemDict (answers w q) [] with
    | Ok items => list_sort relevance items
    | Raise e => Raise e
    end.
Proof.
  intros Hq (Hkeys & Hrefs & _). unfold search.
  rewrite (nonempty_length q Hq). run_monad.
  pose proof (search_loop_collect isItemDict q (providerInstances w) [] w Hrefs
                (dict_get_entries _ Hkeys)) as Hloop.
  fold (dict_keys (providerInstances w)) in Hloop. fold (answers w q) in Hloop.
  destruct (search_loop isItemDict q (dict_keys (providerInstances w)) [] w)
    as [[items|e] w1]; simpl in *; now rewrite <- Hloop.
Qed.

(** When [search] returns, it has called every loaded provider once,
    in the order of the table. *)
Lemma search_trace q w r :
  q <> EmptyString -> table_ok w ->
  fst (search isItemDict (PyStr q) w) = Ok r ->
  trace (snd (search isItemDict (PyStr q) w))
  = trace w ++ map (fun e => EvSearch (snd e) q) (providerInstances w).
Proof.
  intros Hq (Hkeys & _ & _). unfold search.
  rewrite (nonempty_length q Hq). run_monad.
  pose proof (search_loop_trace isItemDict q (providerInstances w) [] w
                (dict_get_entries _ Hkeys)) as Hloop.
  fold (dict_keys (providerInstances w)) in Hloop.
  destruct (search_loop isItemDict q (dict_keys (providerInstances w)) [] w)
    as [[items|e] w1]; simpl in *; [|discriminate].
  intros _. apply Hloop. eauto.
Qed.

(** The result of a [search] that returns. *)
Lemma search_returns q w r :
  q <> EmptyString -> table_ok w ->
  fst (search isItemDict (PyStr q) w) = Ok r ->
  list_sort relevance (flat_map results_of (answers w q)) = Ok r.
Proof.
  intros Hq Hok. rewrite (search_collect q w Hq Hok).
  destruct (collect isItemDict (answers w q) []) as [items|e] eqn:Hc; [|discriminate].
  apply collect_inv in Hc. destruct Hc as [-> _]. tauto.
Qed.

(** With well-behaved providers whose items carry a relevance,
    [search] returns. *)
Lemma search_total q w :
  q <> EmptyString -> table_ok w ->
  Forall (well_behaved isItemDict) (answers w q) ->
  Forall (fun a => exists k, relevance a = Ok k) (flat_map results_of (answers w q)) ->
  exists sorted, fst (search isItemDict (PyStr q) w) = Ok sorted.
Proof.
  intros Hq Hok Hwb Hrel. rewrite (search_collect q w Hq Hok).
  rewrite (collect_ok isItemDict _ [] Hwb) by constructor. simpl.
  now apply list_sort_total.
Qed.
End SearchSpec.

(** ** The orchestrators of the small installation *)

Lemma built_constructed isItemDict providers :
  fst (Indelve_init example_modules (PyList (map PyStr providers)) empty_world) = Ok tt ->
  constructed example_modules isItemDict (built providers).
Proof.
  intros H. apply (constructed_init _ _ (PyList (map PyStr providers)) empty_world).
  unfold built.
  destruct (Indelve_init example_modules (PyList (map PyStr providers)) empty_world).
  simpl in *. now subst.
Qed.

(** * The properties of the specification *)

Section Search.
Variable import_table : string -> res PyModule.
Variable isItemDict : Item -> bool.

(** C1. On every constructed orchestrator and every non-empty string
    query, [search] returns the concatenation of the loaded providers'
    result items, sorted stably and ascending by the natural ordering
    of their ['relevance'] field.  It does return when the providers
    are well behaved (each returns items that pass the shape check
    and carry a relevance, or raises [ValueError]); and whatever it
    returns is that sorted concatenation. *)
Theorem search_sorted_by_relevance q w :
  q <> EmptyString ->
  constructed import_table isItemDict w ->
  (Forall (well_behaved isItemDict) (answers w q) ->
   Forall (fun a => exists k, relevance a = Ok k)
          (flat_map results_of (answers w q)) ->
   exists sorted, fst (search isItemDict (PyStr q) w) = Ok sorted) /\
  (forall sorted,
     fst (search isItemDict (PyStr q) w) = Ok sorted ->
     list_sort relevance (flat_map results_of (answers w q)) = Ok sorted /\
     Permutation sorted (flat_map results_of (answers w q)) /\
     Sorted (ascending relevance) sorted).
Proof.
  intros Hq Hw. apply constructed_table_ok in Hw. destruct Hw as [Hok _].
  split.
  - now apply search_total.
  - intros sorted Hs.
    pose proof (search_returns isItemDict q w sorted Hq Hok Hs) as Hsort.
    split; [exact Hsort|]. split.
    + exact (list_sort_perm _ _ _ Hsort).
    + exact (list_sort_sorted _ _ _ Hsort).
Qed.
End Search.

(** The example of the specification: one provider returns items of
    relevance 3 and 1, another an item of relevance 2, and the result
    is in the order 1, 2, 3. *)
Lemma search_sorted_by_relevance_witness :
  exists sorted,
    fst (search has_relevance (PyStr "apps") (built ["p1"; "p2"])) = Ok sorted /\
    map relevance sorted = [Ok (FInt 1); Ok (FInt 2); Ok (FInt 3)] /\
    Sorted (ascending relevance) sorted.
Proof.
  assert (Hq : "apps" <> EmptyString) by discriminate.
  assert (Hw : constructed example_modules has_relevance (built ["p1"; "p2"])).
  { apply built_constructed. vm_compute. reflexivity. }
  destruct (search_sorted_by_relevance example_modules has_relevance
              "apps" (built ["p1"; "p2"]) Hq Hw) as [Hreturns Hresult].
  destruct Hreturns as [sorted Hs].
  - vm_compute. repeat constructor.
  - vm_compute. repeat (constructor; [eexists; reflexivity|]). constructor.
  - exists sorted. destruct (Hresult sorted Hs) as (Hsort & _ & Hsorted).
    split; [exact Hs|]. split; [|exact Hsorted].
    vm_compute in Hsort. injection Hsort as <-. vm_compute. reflexivity.
Defined.

Lemma searched_calls tr q (entries : list (string * ref)) :
  searched (tr ++ map (fun e => EvSearch (snd e) q) entries)
  = searched tr ++ map snd entries.
Proof.
  unfold searched. rewrite omap_app. f_equal.
  induction entries as [|e entries IH]; [reflexivity|].
  change (snd e :: omap (fun ev => match ev with EvSearch r _ => Some r | _ => None end)
                     (map (fun e => EvSearch (snd e) q) entries)
          = snd e :: map snd entries).
  now f_equal.
Qed.

Section QueryMismatch.
Variable import_table : string -> res PyModule.
Variable isItemDict : Item -> bool.

(** C5. On every constructed orchestrator and every valid query, a
    loaded provider whose [search] raises [ValueError] contributes no
    item; the loop goes on to the remaining providers (every loaded
    provider is called once, in table order), and the result consists
    of exactly the items of the other providers, so each of their
    items appears in it.  The other providers are taken to be well
    behaved, and their items to carry a relevance. *)
Theorem search_tolerates_value_error q w pre name r post msg :
  q <> EmptyString ->
  constructed import_table isItemDict w ->
  providerInstances w = pre ++ (name, r) :: post ->
  answer w q r = Raise (ValueError msg) ->
  let others := map (fun e => answer w q (snd e)) (pre ++ post) in
  Forall (well_behaved isItemDict) others ->
  Forall (fun a => exists k, relevance a = Ok k) (flat_map results_of others) ->
  exists sorted,
    fst (search isItemDict (PyStr q) w) = Ok sorted /\
    Permutation sorted (flat_map results_of others) /\
    (forall e results a,
       e ∈ pre ++ post -> answer w q (snd e) = Ok results ->
       a ∈ results -> a ∈ sorted) /\
    searched (trace (snd (search isItemDict (PyStr q) w)))
    = searched (trace w) ++ map snd (providerInstances w).
Proof.
  intros Hq Hw Htable Hr others Hwb Hrel.
  apply constructed_table_ok in Hw. destruct Hw as [Hok _].
  assert (Hans : answers w q
                 = map (fun e => answer w q (snd e)) pre
                   ++ Raise (ValueError msg)
                   :: map (fun e => answer w q (snd e)) post).
  { unfold answers. rewrite Htable, map_app. simpl. now rewrite Hr. }
  assert (Hflat : flat_map results_of (answers w q) = flat_map results_of others).
  { rewrite Hans. unfold others. rewrite map_app, !flat_map_app. reflexivity. }
  assert (Hwb' : Forall (well_behaved isItemDict) (answers w q)).
  { rewrite Hans. unfold others in Hwb. rewrite map_app in Hwb.
    apply Forall_app in Hwb. destruct Hwb as [Hpre Hpost].
    apply Forall_app. split; [assumption|]. now constructor. }
  destruct (search_total isItemDict q w Hq Hok Hwb') as [sorted Hs].
  { now rewrite Hflat. }
  exists sorted. split; [exact Hs|].
  pose proof (search_returns isItemDict q w sorted Hq Hok Hs) as Hsort.
  rewrite Hflat in Hsort. apply list_sort_perm in Hsort.
  split; [exact Hsort|]. split.
  - intros e results a He Hres Ha. rewrite Hsort.
    apply list_elem_of_In, in_flat_map. exists (Ok results). split.
    + unfold others. apply in_map_iff. exists e.
      split; [exact Hres|]. now apply list_elem_of_In.
    + now apply list_elem_of_In.
  - rewrite (search_trace isItemDict q w sorted Hq Hok Hs). apply searched_calls.
Qed.
End QueryMismatch.

(** Between [p1] and [p2], provider [picky] rejects the query; the
    items of [p1] and [p2] are all returned, and [p2] is still
    called. *)
Lemma search_tolerates_value_error_witness :
  exists sorted,
    fst (search has_relevance (PyStr "apps") (built ["p1"; "picky"; "p2"])) = Ok sorted /\
    Permutation sorted [item 3 "c"; item 1 "a"; item 2 "b"] /\
    searched (trace (snd (search has_relevance (PyStr "apps")
                            (built ["p1"; "picky"; "p2"]))))
    = [0%nat; 1%nat; 2%nat].
Proof.
  assert (Hq : "apps" <> EmptyString) by discriminate.
  assert (Hw : constructed example_modules has_relevance (built ["p1"; "picky"; "p2"])).
  { apply built_constructed. vm_compute. reflexivity. }
  destruct (search_tolerates_value_error example_modules has_relevance
              "apps" (built ["p1"; "picky"; "p2"])
              [("p1", 0%nat)] "picky" 1%nat [("p2", 2%nat)] "not for me" Hq Hw)
    as (sorted & Hs & Hperm & _ & Hcalls).
  - vm_compute. reflexivity.
  - vm_compute. reflexivity.
  - vm_compute. repeat constructor.
  - vm_compute. repeat (constructor; [eexists; reflexivity|]). constructor.
  - exists sorted. split; [exact Hs|]. split; [exact Hperm|exact Hcalls].
Defined.

Section Validation.
Variable isItemDict : Item -> bool.

(** C4. On every orchestrator, [search] with a query that is not a
    string raises [TypeError], and [search] with the empty string
    raises [ValueError]; in both cases the world is left exactly as it
    was, so no provider has been called. *)
Theorem search_rejects_bad_query query w :
  (forall q, query <> PyStr q) ->
  search isItemDict query w
  = (Raise (TypeError "Parameter 'query' should be a string."), w) /\
  search isItemDict (PyStr EmptyString) w
  = (Raise (ValueError "Parameter 'query' shouldn't be empty."), w).
Proof.
  intros Hquery. split; [|reflexivity].
  destruct query as [|n|q|l]; try reflexivity.
  now destruct (Hquery q).
Qed.

(** C9. Neither [refresh], whatever the flag, nor [search], whatever
    the query, adds, removes or replaces an entry of the instance
    table: after the call, returned or raised, the table is the one
    before it. *)
Theorem instance_table_fixed w force query :
  providerInstances (snd (refresh force w)) = providerInstances w /\
  providerInstances (snd (search isItemDict query w)) = providerInstances w.
Proof.
  split.
  - apply refresh_frame.
  - apply search_frame.
Qed.

(** C6 (the code departs from it).  With a single loaded provider, the
    items it returns are never passed to [isItemDict]: whatever the
    check is, and whatever the items are, [search] sorts and returns
    them, and [AssertionError] is never raised. *)
Theorem search_skips_item_check (results : list Item) name :
  fst (search isItemDict (PyStr "apps")
         {| providerInstances := [(name, 0%nat)];
            heap := fun _ => stub (Ok results);
            next_ref := 1%nat;
            trace := [] |})
  = list_sort relevance results.
Proof.
  unfold search. cbn [String.length Nat.eqb]. do 2 run_monad.
  rewrite String.eqb_refl. reflexivity.
Qed.
End Validation.

(** Queries that are not strings. *)
Lemma search_rejects_bad_query_witness :
  search has_relevance (PyInt 7) (built ["p1"; "p2"])
  = (Raise (TypeError "Parameter 'query' should be a string."), built ["p1"; "p2"]) /\
  search has_relevance (PyStr EmptyString) (built ["p1"; "p2"])
  = (Raise (ValueError "Parameter 'query' shouldn't be empty."), built ["p1"; "p2"]).
Proof.
  apply (search_rejects_bad_query has_relevance (PyInt 7) (built ["p1"; "p2"])).
  intros q. discriminate.
Defined.

(** A provider returns one item without relevance and one with: under
    a check that rejects every item, and under the check of the
    specification, the result is the [KeyError] of the sort key, not an
    assertion failure. *)
Lemma search_skips_item_check_example :
  fst (search (fun _ => false) (PyStr "apps")
         {| providerInstances := [("files", 0%nat)];
            heap := fun _ => stub (Ok [{[ "name" := FStr "x" ]}; item 1 "a"]);
            next_ref := 1%nat;
            trace := [] |})
  = Raise (KeyError "relevance") /\
  fst (search has_relevance (PyStr "apps")
         {| providerInstances := [("files", 0%nat)];
            heap := fun _ => stub (Ok [item 2 "b"; item 1 "a"]);
            next_ref := 1%nat;
            trace := [] |})
  = Ok [item 1 "a"; item 2 "b"] /\
  fst (search (fun _ => false) (PyStr "apps")
         {| providerInstances := [("files", 0%nat)];
            heap := fun _ => stub (Ok [item 2 "b"; item 1 "a"]);
            next_ref := 1%nat;
            trace := [] |})
  = Ok [item 1 "a"; item 2 "b"].
Proof. repeat split; vm_compute; reflexivity. Qed.

(** ** Construction from an explicit list *)

Section Construction.
Variable import_table : string -> res PyModule.
Variable isItemDict : Item -> bool.

Lemma Indelve_init_list ids w :
  Forall (fun id => is_Some (loads import_table id)
                    \/ unavailable import_table id = true) ids ->
  exists w',
    Indelve_init import_table (PyList (map PyStr ids)) w
    = (if Nat.eqb (length (providerInstances w')) 0
       then Raise NoProvidersError else Ok tt, w') /\
    loaded import_table ids (cleared w) w'.
Proof.
  intros Hids.
  destruct (load_all import_table ids (cleared w) Hids) as (w' & Hrun & Hpost).
  exists w'. split; [|exact Hpost].
  unfold Indelve_init, resolve_providers.
  change ((set_instances [];;
           for_each (load_provider import_table) (map PyStr ids);;
           d ← get_instances;
           if Nat.eqb (length d) 0 then raise NoProvidersError else mret tt) w
          = (if Nat.eqb (length (providerInstances w')) 0
             then Raise NoProvidersError else Ok tt, w')).
  rewrite Indelve_init_tail. fold (cleared w). now rewrite Hrun.
Qed.

Lemma filter_all_true {A} (P : A -> bool) (l : list A) :
  Forall (fun a => P a = true) l -> filter (fun a => P a = true) l = l.
Proof.
  induction 1 as [|a l Ha _ IH]; [reflexivity|].
  rewrite filter_cons, decide_True by assumption. now rewrite IH.
Qed.

(** C3. When every identifier of the list is unavailable (its import
    fails with [ImportError] or [KeyError]), construction emits one
    warning per identifier, in order, each carrying its identifier, and
    then raises [NoProvidersError]; and no constructed orchestrator has
    an empty instance table. *)
Theorem no_providers_is_fatal ids w :
  Forall (fun id => unavailable import_table id = true) ids ->
  (exists w',
     Indelve_init import_table (PyList (map PyStr ids)) w
     = (Raise NoProvidersError, w') /\
     warnings (trace w')
     = warnings (trace w) ++ map (fun id => (id, ProviderLoadWarning)) ids /\
     providerInstances w' = []) /\
  (forall w1, constructed import_table isItemDict w1 -> providerInstances w1 <> []).
Proof.
  intros Hids. split; [|intros w1 Hw1; now apply constructed_table_ok in Hw1].
  destruct (Indelve_init_list ids w) as (w' & Hrun & Hpost).
  { eapply Forall_impl; [exact Hids|]. simpl. auto. }
  assert (Hempty : providerInstances w' = []).
  { destruct (providerInstances w') as [|[k r] d] eqn:Hd; [reflexivity|].
    assert (Hk : k ∈ dict_keys (providerInstances w')).
    { rewrite Hd. apply list_elem_of_here. }
    apply (loaded_keys _ _ _ _ Hpost) in Hk. simpl in Hk.
    destruct Hk as [Hk|[Hk Hl]]; [now apply not_elem_of_nil in Hk|].
    rewrite Forall_forall in Hids. apply Hids in Hk.
    rewrite (unavailable_not_loads _ _ Hk) in Hl. now destruct Hl. }
  exists w'. rewrite Hempty in Hrun. simpl in Hrun.
  split; [exact Hrun|]. split; [|exact Hempty].
  rewrite (loaded_warnings _ _ _ _ Hpost). simpl.
  now rewrite (filter_all_true _ _ Hids).
Qed.

(** C2, as amended.  When every identifier of the list is either loadable (its
    module imports and its [Provider] constructor returns) or
    unavailable (the import fails with [ImportError] or [KeyError]),
    and at least one is loadable, construction succeeds; the instance
    table contains exactly the loadable identifiers of the list, each
    mapped to the instance its constructor returned; every unavailable
    identifier is absent from the table and has caused a warning that
    carries it, and these are all the warnings. *)
Theorem init_loads_exactly_the_importable ids w :
  Forall (fun id => is_Some (loads import_table id)
                    \/ unavailable import_table id = true) ids ->
  Exists (fun id => is_Some (loads import_table id)) ids ->
  exists w',
    Indelve_init import_table (PyList (map PyStr ids)) w = (Ok tt, w') /\
    (forall id, id ∈ dict_keys (providerInstances w')
                <-> id ∈ ids /\ is_Some (loads import_table id)) /\
    (forall id o, id ∈ ids -> loads import_table id = Some o ->
                  exists r, dict_get id (providerInstances w') = Some r /\
                            heap w' r = o) /\
    (forall id, id ∈ ids -> unavailable import_table id = true ->
                dict_get id (providerInstances w') = None /\
                (id, ProviderLoadWarning) ∈ warnings (trace w')) /\
    warnings (trace w')
    = warnings (trace w)
      ++ map (fun id => (id, ProviderLoadWarning))
             (filter (fun id => unavailable import_table id = true) ids).
Proof.
  intros Hids Hsome.
  destruct (Indelve_init_list ids w Hids) as (w' & Hrun & Hpost).
  assert (Hkeys : forall id, id ∈ dict_keys (providerInstances w')
                             <-> id ∈ ids /\ is_Some (loads import_table id)).
  { intros id. rewrite (loaded_keys _ _ _ _ Hpost). simpl. split; [|auto].
    intros [H|H]; [now apply not_elem_of_nil in H|exact H]. }
  assert (Hlen : Nat.eqb (length (providerInstances w')) 0 = false).
  { apply Exists_exists in Hsome. destruct Hsome as (id & Hin & Hl).
    assert (Hk : id ∈ dict_keys (providerInstances w')) by (apply Hkeys; auto).
    destruct (providerInstances w'); [now apply not_elem_of_nil in Hk|reflexivity]. }
  rewrite Hlen in Hrun.
  exists w'. split; [exact Hrun|]. split; [exact Hkeys|].
  split; [exact (loaded_instance _ _ _ _ Hpost)|].
  split; [|exact (loaded_warnings _ _ _ _ Hpost)].
  intros id Hin Hun. split.
  - destruct (dict_get id (providerInstances w')) as [r|] eqn:Hget; [|reflexivity].
    assert (Hk : id ∈ dict_keys (providerInstances w')).
    { apply dict_get_keys. rewrite Hget. eauto. }
    apply Hkeys in Hk. destruct Hk as [_ Hl].
    rewrite (unavailable_not_loads _ _ Hun) in Hl. now destruct Hl.
  - rewrite (loaded_warnings _ _ _ _ Hpost). apply elem_of_app. right.
    apply list_elem_of_fmap. exists id. split; [reflexivity|].
    apply list_elem_of_filter. auto.
Qed.

(** C10. Constructing with the empty list passes the type check,
    imports nothing, warns of nothing and raises [NoProvidersError]:
    the world is left as it was but for the emptied table.  The omitted
    argument, in contrast, imports the manifest of the package. *)
Theorem empty_list_is_fatal w :
  resolve_providers import_table (PyList []) w = (Ok [], w) /\
  Indelve_init import_table (PyList []) w = (Raise NoProvidersError, cleared w) /\
  trace (cleared w) = trace w /\
  trace (snd (resolve_providers import_table PyNone w))
  = trace w ++ [EvImport (provider_package +:+ "__init__")].
Proof.
  repeat split.
  unfold resolve_providers, listProviders, get_all. run_monad.
  now destruct (import_table (provider_package +:+ "__init__")) as [[all|cls]|e].
Qed.
End Construction.

(** In the small installation: [zz] does not exist, [p1] and [p2]
    load. *)
Lemma init_loads_exactly_the_importable_witness :
  exists w',
    Indelve_init example_modules (PyList (map PyStr ["p1"; "zz"; "p2"])) empty_world
    = (Ok tt, w') /\
    dict_keys (providerInstances w') = ["p1"; "p2"] /\
    warnings (trace w') = [("zz", ProviderLoadWarning)].
Proof.
  destruct (init_loads_exactly_the_importable example_modules
              ["p1"; "zz"; "p2"] empty_world) as (w' & Hrun & _ & _ & _ & Hwarn).
  - constructor; [left; vm_compute; eauto|].
    constructor; [right; vm_compute; reflexivity|].
    constructor; [left; vm_compute; eauto|]. constructor.
  - constructor. vm_compute. eauto.
  - exists w'. split; [exact Hrun|]. split.
    + apply (f_equal snd) in Hrun. simpl in Hrun. subst w'. vm_compute. reflexivity.
    + rewrite Hwarn. vm_compute. reflexivity.
Defined.

(** C2, as stated, fails: the modules of [p1] and [broken] both
    import, so the list contains importable identifiers, yet the
    constructor of [broken] raises, outside the [try], and construction
    raises with it instead of succeeding. *)
Lemma init_importable_counterexample :
  (exists m, example_modules (provider_package +:+ "p1") = Ok m) /\
  (exists m, example_modules (provider_package +:+ "broken") = Ok m) /\
  fst (Indelve_init example_modules (PyList (map PyStr ["p1"; "broken"])) empty_world)
  = Raise (ProviderError "constructor failed") /\
  ~ (exists w',
       Indelve_init example_modules (PyList (map PyStr ["p1"; "broken"])) empty_world
       = (Ok tt, w')).
Proof.
  assert (H : fst (Indelve_init example_modules (PyList (map PyStr ["p1"; "broken"]))
                     empty_world)
              = Raise (ProviderError "constructor failed")) by (vm_compute; reflexivity).
  split; [eexists; vm_compute; reflexivity|].
  split; [eexists; vm_compute; reflexivity|].
  split; [exact H|].
  intros (w' & Hw'). rewrite Hw' in H. discriminate.
Qed.

(** Neither [zz] nor [yy] exists. *)
Lemma no_providers_is_fatal_witness :
  exists w',
    Indelve_init example_modules (PyList (map PyStr ["zz"; "yy"])) empty_world
    = (Raise NoProvidersError, w') /\
    warnings (trace w') = [("zz", ProviderLoadWarning); ("yy", ProviderLoadWarning)] /\
    providerInstances w' = [].
Proof.
  destruct (no_providers_is_fatal example_modules has_relevance
              ["zz"; "yy"] empty_world) as [(w' & Hrun & Hwarn & Hempty) _].
  - repeat constructor.
  - exists w'. split; [exact Hrun|]. split; [|exact Hempty].
    rewrite Hwarn. reflexivity.
Defined.

(** ** The registry *)

Section Registry.
Variable import_table : string -> res PyModule.

Lemma getProviderDescription_imported id cls w :
  import_table (provider_package +:+ id) = Ok (ProviderModule cls) ->
  getProviderDescription import_table (PyStr id) w
  = (if has_key "short" (description cls) && has_key "long" (description cls)
     then Ok (description cls)
     else Raise (NotImplementedError
                   ("Provider '" +:+ id
                    +:+ "' does not have a proper description dictionary.")),
     record (EvImport (provider_package +:+ id)) w).
Proof.
  intros Himport. unfold getProviderDescription, get_Provider. run_monad.
  rewrite Himport. simpl.
  destruct (has_key "short" (description cls)),
           (has_key "long" (description cls)); reflexivity.
Qed.

(** C8. For a string identifier whose module imports and carries a
    [Provider] class, [getProviderDescription] raises
    [NotImplementedError] when the description dict lacks the key
    ['short'] or the key ['long'], and otherwise returns that dict,
    which has both keys. *)
Theorem getProviderDescription_requires_both_keys id cls w :
  import_table (provider_package +:+ id) = Ok (ProviderModule cls) ->
  (has_key "short" (description cls) = false
   \/ has_key "long" (description cls) = false ->
   exists msg,
     fst (getProviderDescription import_table (PyStr id) w)
     = Raise (NotImplementedError msg)) /\
  (has_key "short" (description cls) = true ->
   has_key "long" (description cls) = true ->
   fst (getProviderDescription import_table (PyStr id) w)
   = Ok (description cls)).
Proof.
  intros Himport. rewrite (getProviderDescription_imported id cls w Himport).
  split.
  - intros [H|H]; rewrite H; simpl; [eauto|].
    destruct (has_key "short" (description cls)); simpl; eauto.
  - intros -> ->. reflexivity.
Qed.

Lemma getProviderDescription_load_error id msg w :
  import_table (provider_package +:+ id) = Raise (ImportError msg) ->
  getProviderDescription import_table (PyStr id) w
  = (Raise (ProviderLoadError id), record (EvImport (provider_package +:+ id)) w).
Proof.
  intros Himport. unfold getProviderDescription. run_monad.
  now rewrite Himport.
Qed.

(** The outcome of a lookup does not depend on the world, and its only
    effect is the import of the module. *)
Lemma getProviderDescription_world id w w' :
  fst (getProviderDescription import_table (PyStr id) w)
  = fst (getProviderDescription import_table (PyStr id) w').
Proof.
  unfold getProviderDescription, get_Provider. run_monad.
  destruct (import_table (provider_package +:+ id)) as [[all|cls]|e]; simpl.
  - reflexivity.
  - now destruct (negb (has_key "short" (description cls))
                  || negb (has_key "long" (description cls))).
  - now destruct (is_import_error e).
Qed.

Lemma getProviderDescription_effect id w :
  snd (getProviderDescription import_table (PyStr id) w)
  = record (EvImport (provider_package +:+ id)) w.
Proof.
  unfold getProviderDescription, get_Provider. run_monad.
  destruct (import_table (provider_package +:+ id)) as [[all|cls]|e]; simpl.
  - reflexivity.
  - now destruct (negb (has_key "short" (description cls))
                  || negb (has_key "long" (description cls))).
  - now destruct (is_import_error e).
Qed.

(** The loop of [listProviders] up to the first lookup that fails. *)
Lemma describe_all_fails pre id post e : forall providerDict w,
  Forall (fun p => exists d,
            fst (getProviderDescription import_table (PyStr p) w) = Ok d) pre ->
  fst (getProviderDescription import_table (PyStr id) w) = Raise e ->
  fst (describe_all import_table (pre ++ id :: post) providerDict w) = Raise e /\
  trace (snd (describe_all import_table (pre ++ id :: post) providerDict w))
  = trace w ++ map (fun p => EvImport (provider_package +:+ p)) (pre ++ [id]).
Proof.
  induction pre as [|p pre IH]; intros providerDict w Hpre Hid.
  - cbn [app describe_all]. unfold mbind, M_bind.
    pose proof (getProviderDescription_effect id w) as Heff.
    destruct (getProviderDescription import_table (PyStr id) w) as [[d|e'] w1].
    + discriminate Hid.
    + cbn [fst snd] in *. injection Hid as ->. subst w1. auto.
  - inversion Hpre as [|? ? [d Hp] Hpre']; subst.
    assert (Hpre1 : Forall (fun p' => exists d,
                      fst (getProviderDescription import_table (PyStr p')
                             (record (EvImport (provider_package +:+ p)) w)) = Ok d) pre).
    { eapply Forall_impl; [exact Hpre'|]. intros p' [d'' Hd'']. exists d''.
      now rewrite (getProviderDescription_world p' _ w). }
    assert (Hid1 : fst (getProviderDescription import_table (PyStr id)
                          (record (EvImport (provider_package +:+ p)) w)) = Raise e).
    { now rewrite (getProviderDescription_world id _ w). }
    cbn [app describe_all]. unfold mbind, M_bind.
    pose proof (getProviderDescription_effect p w) as Heff.
    destruct (getProviderDescription import_table (PyStr p) w) as [[d'|e'] w1].
    + cbn [fst snd] in Heff. subst w1.
      destruct (IH (dict_set p d' providerDict)
                   (record (EvImport (provider_package +:+ p)) w) Hpre1 Hid1)
        as [Hres Htrace].
      split; [exact Hres|]. rewrite Htrace. simpl. now rewrite <- app_assoc.
    + discriminate Hp.
Qed.

(** A manifest with a failing entry has a first failing entry. *)
Lemma first_failing_lookup (all : list string) w :
  Exists (fun p => exists e,
            fst (getProviderDescription import_table (PyStr p) w) = Raise e) all ->
  exists pre id post e,
    all = pre ++ id :: post /\
    Forall (fun p => exists d,
              fst (getProviderDescription import_table (PyStr p) w) = Ok d) pre /\
    fst (getProviderDescription import_table (PyStr id) w) = Raise e.
Proof.
  induction all as [|p all IH]; intros Hex; [now apply Exists_nil in Hex|].
  destruct (fst (getProviderDescription import_table (PyStr p) w)) as [d|e] eqn:Hp.
  - apply Exists_cons in Hex. destruct Hex as [[e He]|Hex]; [congruence|].
    destruct (IH Hex) as (pre & id & post & e & -> & Hpre & Hid).
    exists (p :: pre), id, post, e. split; [reflexivity|]. split; [|exact Hid].
    constructor; eauto.
  - exists [], p, all, e. split; [reflexivity|]. split; [constructor|exact Hp].
Qed.
End Registry.

Section RegistryFailure.
Variable import_table : string -> res PyModule.

(** C7, as amended.  When descriptions are requested, [listProviders]
    looks the identifiers of the manifest up in order and does not go
    past a failing entry: whenever the lookup of some identifier of the
    manifest fails, there is a first such identifier, and
    [listProviders] raises the exception of its lookup, which is
    [ProviderLoadError] carrying the identifier when the module of the
    identifier fails to import; no mapping is returned, and the
    identifiers after it are not looked up. *)
Theorem listProviders_stops_at_first_failure all w :
  import_table (provider_package +:+ "__init__") = Ok (PackageInit all) ->
  Exists (fun p => exists e,
            fst (getProviderDescription import_table (PyStr p) w) = Raise e) all ->
  exists pre id post e,
    all = pre ++ id :: post /\
    Forall (fun p => exists d,
              fst (getProviderDescription import_table (PyStr p) w) = Ok d) pre /\
    fst (getProviderDescription import_table (PyStr id) w) = Raise e /\
    (forall msg, import_table (provider_package +:+ id) = Raise (ImportError msg) ->
                 e = ProviderLoadError id) /\
    fst (listProviders import_table true w) = Raise e /\
    trace (snd (listProviders import_table true w))
    = trace w ++ EvImport (provider_package +:+ "__init__")
              :: map (fun p => EvImport (provider_package +:+ p)) (pre ++ [id]).
Proof.
  intros Hinit Hex.
  destruct (first_failing_lookup import_table all w Hex)
    as (pre & id & post & e & -> & Hpre & Hid).
  exists pre, id, post, e. split; [reflexivity|]. split; [exact Hpre|].
  split; [exact Hid|]. split.
  - intros msg Himport.
    rewrite (getProviderDescription_load_error import_table id msg w Himport) in Hid.
    now injection Hid as <-.
  - unfold listProviders, get_all. run_monad. rewrite Hinit. simpl.
    destruct (describe_all_fails import_table pre id post e []
                (record (EvImport (provider_package +:+ "__init__")) w))
      as [Hres Htrace].
    + eapply Forall_impl; [exact Hpre|]. intros p [d Hd]. exists d.
      now rewrite (getProviderDescription_world import_table p _ w).
    + now rewrite (getProviderDescription_world import_table id _ w).
    + destruct (describe_all import_table (pre ++ id :: post) []
                  (record (EvImport (provider_package +:+ "__init__")) w))
        as [[d|e'] w1]; simpl in *; [discriminate|].
      injection Hres as ->.
      split; [reflexivity|]. rewrite Htrace. simpl. now rewrite <- app_assoc.
Qed.
End RegistryFailure.

(** The manifest of the small installation lists [p1], [zz], [p2], and
    [zz] does not exist: the lookup of [zz] is the first to fail. *)
Lemma listProviders_stops_at_first_failure_witness :
  exists pre id post,
    ["p1"; "zz"; "p2"] = pre ++ id :: post /\
    fst (listProviders example_modules true empty_world)
    = Raise (ProviderLoadError "zz") /\
    trace (snd (listProviders example_modules true empty_world))
    = EvImport "indelve.providers.__init__"
      :: map (fun p => EvImport (provider_package +:+ p)) (pre ++ [id]).
Proof.
  destruct (listProviders_stops_at_first_failure example_modules
              ["p1"; "zz"; "p2"] empty_world)
    as (pre & id & post & e & Hsplit & _ & _ & _ & Hres & Htrace).
  - reflexivity.
  - apply Exists_cons. right. apply Exists_cons. left.
    exists (ProviderLoadError "zz"). vm_compute. reflexivity.
  - exists pre, id, post. split; [exact Hsplit|]. split; [|exact Htrace].
    rewrite Hres. vm_compute in Hres. now injection Hres as <-.
Defined.

(** C7, as stated, fails: [p2] has a description that its own lookup
    returns, yet with [zz] before it in the manifest [listProviders]
    raises, and returns no mapping, hence no entry for [p2]. *)
Lemma listProviders_isolation_counterexample :
  fst (getProviderDescription example_modules (PyStr "p2") empty_world)
  = Ok full_description /\
  fst (listProviders example_modules true empty_world) = Raise (ProviderLoadError "zz") /\
  ~ (exists d, fst (listProviders example_modules true empty_world) = Ok (Descriptions d)
               /\ "p2" ∈ dict_keys d).
Proof.
  assert (H : fst (listProviders example_modules true empty_world)
              = Raise (ProviderLoadError "zz")) by (vm_compute; reflexivity).
  split; [vm_compute; reflexivity|]. split; [exact H|].
  intros (d & Hd & _). rewrite H in Hd. discriminate.
Qed.

(** [odd] lacks the key [long]; [p1] has both keys. *)
Lemma getProviderDescription_requires_both_keys_witness :
  (exists msg,
     fst (getProviderDescription example_modules (PyStr "odd") empty_world)
     = Raise (NotImplementedError msg)) /\
  fst (getProviderDescription example_modules (PyStr "p1") empty_world)
  = Ok full_description.
Proof.
  split.
  - apply (getProviderDescription_requires_both_keys example_modules "odd"
             {| description := {[ "short" := "odd" ]}; construct := Ok (stub (Ok [])) |}
             empty_world eq_refl).
    right. reflexivity.
  - apply (getProviderDescription_requires_both_keys example_modules "p1"
             {| description := full_description;
                construct := Ok (stub (Ok [item 3 "c"; item 1 "a"])) |}
             empty_world eq_refl); reflexivity.
Defined.

(** * Further properties of the code *)

(** ** Construction: argument check, default and failures *)

Lemma for_each_app {A} (body : A -> M unit) l1 l2 : forall w,
  for_each body (l1 ++ l2) w
  = match for_each body l1 w with
    | (Ok _, w') => for_each body l2 w'
    | (Raise e, w') => (Raise e, w')
    end.
Proof.
  induction l1 as [|x l1 IH]; intros w; [reflexivity|].
  cbn [app]. rewrite !for_each_cons.
  destruct (body x w) as [[[]|e] w1]; [apply IH|reflexivity].
Qed.

Section ConstructionMore.
Variable import_table : string -> res PyModule.
Variable isItemDict : Item -> bool.

(** X1. An argument that is neither [None] nor a list makes
    [__init__] raise [TypeError] at once: nothing is imported and the
    world is untouched. *)
Theorem init_rejects_non_list providers w :
  providers <> PyNone ->
  (forall l, providers <> PyList l) ->
  Indelve_init import_table providers w
  = (Raise (TypeError "`providers` must be a list or None."), w).
Proof.
  intros Hnone Hlist. destruct providers as [|n|s|l]; try reflexivity.
  - now destruct Hnone.
  - now destruct (Hlist l).
Qed.

(** X2. Omitting the argument is constructing from the manifest
    [__all__] of the provider package, after the import of that
    package: same outcome, same table, same warnings. *)
Theorem init_default_is_manifest all w :
  import_table (provider_package +:+ "__init__") = Ok (PackageInit all) ->
  Indelve_init import_table PyNone w
  = Indelve_init import_table (PyList (map PyStr all))
      (record (EvImport (provider_package +:+ "__init__")) w).
Proof.
  intros Hinit. unfold Indelve_init, resolve_providers, listProviders, get_all.
  unfold mbind at 1 5. unfold M_bind at 1 5. run_monad. now rewrite Hinit.
Qed.

(** X3. When the argument is omitted and the import of the provider
    package itself fails, whatever the exception, also [ImportError],
    [__init__] lets it through: there is no warning and the table is
    not even emptied. *)
Theorem init_manifest_failure_propagates e w :
  import_table (provider_package +:+ "__init__") = Raise e ->
  Indelve_init import_table PyNone w
  = (Raise e, record (EvImport (provider_package +:+ "__init__")) w).
Proof.
  intros Hinit. unfold Indelve_init, resolve_providers, listProviders, get_all.
  run_monad. now rewrite Hinit.
Qed.

Lemma load_provider_breaks id e w :
  breaks import_table id = Some e ->
  load_provider import_table (PyStr id) w
  = (Raise e, record (EvImport (provider_package +:+ id)) w).
Proof.
  unfold breaks, load_provider, new_Provider, get_Provider. run_monad.
  destruct (import_table (provider_package +:+ id)) as [[all|cls]|e']; simpl.
  - now intros [= <-].
  - destruct (construct cls) as [o|e']; [discriminate|]. now intros [= <-].
  - destruct (is_import_or_key_error e'); [discriminate|]. now intros [= <-].
Qed.

(** X4. Loading stops at the first identifier whose module fails to
    import with an exception other than [ImportError] and [KeyError],
    lacks [Provider], or whose constructor raises: [__init__] raises
    that very exception, without a warning for the identifier, and the
    identifiers after it are not imported. *)
Theorem init_lets_provider_failure_through pre id post e w :
  Forall (fun id => is_Some (loads import_table id)
                    \/ unavailable import_table id = true) pre ->
  breaks import_table id = Some e ->
  exists w',
    Indelve_init import_table (PyList (map PyStr (pre ++ id :: post))) w = (Raise e, w') /\
    imports (trace w')
    = imports (trace w) ++ map (fun id => provider_package +:+ id) (pre ++ [id]) /\
    warnings (trace w')
    = warnings (trace w)
      ++ map (fun id => (id, ProviderLoadWarning))
             (filter (fun id => unavailable import_table id = true) pre).
Proof.
  intros Hpre Hid.
  destruct (load_all import_table pre (cleared w) Hpre) as (w1 & Hrun & Hpost).
  exists (record (EvImport (provider_package +:+ id)) w1).
  split; [|split].
  - unfold Indelve_init, resolve_providers.
    change ((set_instances [];;
             for_each (load_provider import_table) (map PyStr (pre ++ id :: post));;
             d ← get_instances;
             if Nat.eqb (length d) 0 then raise NoProvidersError else mret tt) w
            = (Raise e, record (EvImport (provider_package +:+ id)) w1)).
    rewrite Indelve_init_tail. fold (cleared w).
    rewrite map_app, for_each_app, Hrun. cbn [map]. rewrite for_each_cons.
    now rewrite (load_provider_breaks id e w1 Hid).
  - simpl. unfold imports in *. rewrite omap_app.
    fold (imports (trace w1)). rewrite (loaded_imports _ _ _ _ Hpost).
    simpl. rewrite map_app. simpl. now rewrite <- app_assoc.
  - simpl. unfold warnings in *. rewrite omap_app. simpl. rewrite app_nil_r.
    exact (loaded_warnings _ _ _ _ Hpost).
Qed.
End ConstructionMore.

Lemma built_more_constructed isItemDict providers :
  fst (Indelve_init more_modules (PyList (map PyStr providers)) empty_world) = Ok tt ->
  constructed more_modules isItemDict (built_more providers).
Proof.
  intros H. apply (constructed_init _ _ (PyList (map PyStr providers)) empty_world).
  unfold built_more.
  destruct (Indelve_init more_modules (PyList (map PyStr providers)) empty_world).
  simpl in *. now subst.
Qed.

(** A name passed instead of a list of names. *)
Lemma init_rejects_non_list_witness :
  Indelve_init example_modules (PyStr "p1") empty_world
  = (Raise (TypeError "`providers` must be a list or None."), empty_world).
Proof.
  apply (init_rejects_non_list example_modules (PyStr "p1") empty_world);
    intros; discriminate.
Defined.

(** The manifest of the small installation: [p1], [zz], [p2]. *)
Lemma init_default_is_manifest_witness :
  Indelve_init example_modules PyNone empty_world
  = Indelve_init example_modules (PyList (map PyStr ["p1"; "zz"; "p2"]))
      (record (EvImport "indelve.providers.__init__") empty_world) /\
  dict_keys (providerInstances (snd (Indelve_init example_modules PyNone empty_world)))
  = ["p1"; "p2"].
Proof.
  split.
  - apply (init_default_is_manifest example_modules ["p1"; "zz"; "p2"] empty_world).
    reflexivity.
  - vm_compute. reflexivity.
Defined.

Lemma init_manifest_failure_propagates_witness :
  Indelve_init no_modules PyNone empty_world
  = (Raise (ImportError "No module named indelve.providers.__init__"),
     record (EvImport "indelve.providers.__init__") empty_world).
Proof.
  apply (init_manifest_failure_propagates no_modules
           (ImportError "No module named indelve.providers.__init__") empty_world).
  reflexivity.
Defined.

(** The constructor of [broken] raises: [p2] is never imported and
    only [zz] is warned about. *)
Lemma init_lets_provider_failure_through_witness :
  exists w',
    Indelve_init example_modules (PyList (map PyStr ["p1"; "zz"; "broken"; "p2"]))
      empty_world
    = (Raise (ProviderError "constructor failed"), w') /\
    imports (trace w')
    = ["indelve.providers.p1"; "indelve.providers.zz"; "indelve.providers.broken"] /\
    warnings (trace w') = [("zz", ProviderLoadWarning)].
Proof.
  destruct (init_lets_provider_failure_through example_modules
              ["p1"; "zz"] "broken" ["p2"] (ProviderError "constructor failed")
              empty_world) as (w' & Hrun & Himports & Hwarn).
  - constructor; [left; vm_compute; eauto|].
    constructor; [right; vm_compute; reflexivity|]. constructor.
  - vm_compute. reflexivity.
  - exists w'. split; [exact Hrun|]. split.
    + rewrite Himports. reflexivity.
    + rewrite Hwarn. vm_compute. reflexivity.
Defined.

(** ** The registry: what it returns and what it leaves alone *)

Lemma only_imports_refl w : only_imports w w.
Proof. repeat split. exists []. simpl. now rewrite app_nil_r. Qed.

Lemma only_imports_trans w1 w2 w3 :
  only_imports w1 w2 -> only_imports w2 w3 -> only_imports w1 w3.
Proof.
  intros (Hi & Hh & Hn & l & Ht) (Hi' & Hh' & Hn' & l' & Ht').
  repeat split; try congruence.
  exists (l ++ l'). rewrite Ht', Ht, map_app. now rewrite <- app_assoc.
Qed.

Lemma only_imports_record name w : only_imports w (record (EvImport name) w).
Proof. repeat split. now exists [name]. Qed.

Section RegistryMore.
Variable import_table : string -> res PyModule.

Lemma getProviderDescription_only_imports provider w :
  only_imports w (snd (getProviderDescription import_table provider w)).
Proof.
  unfold getProviderDescription, get_Provider.
  destruct provider as [|n|id|l]; try apply only_imports_refl.
  run_monad.
  destruct (import_table (provider_package +:+ id)) as [[all|cls]|e]; simpl.
  - apply only_imports_record.
  - destruct (negb (has_key "short" (description cls))
              || negb (has_key "long" (description cls))); apply only_imports_record.
  - destruct (is_import_error e); apply only_imports_record.
Qed.

Lemma describe_all_only_imports providerList : forall providerDict w,
  only_imports w (snd (describe_all import_table providerList providerDict w)).
Proof.
  induction providerList as [|provider rest IH]; intros providerDict w;
    [apply only_imports_refl|].
  cbn [describe_all]. unfold mbind, M_bind.
  pose proof (getProviderDescription_only_imports (PyStr provider) w) as H.
  destruct (getProviderDescription import_table (PyStr provider) w) as [[d|e] w1];
    simpl in *; [|exact H].
  eapply only_imports_trans; [exact H|apply IH].
Qed.

Lemma listProviders_only_imports descriptions w :
  only_imports w (snd (listProviders import_table descriptions w)).
Proof.
  unfold listProviders, get_all. run_monad.
  destruct (import_table (provider_package +:+ "__init__")) as [[all|cls]|e];
    simpl; try apply only_imports_record.
  destruct descriptions; simpl; [|apply only_imports_record].
  match goal with |- context [describe_all _ ?l ?d ?w0] =>
    pose proof (describe_all_only_imports l d w0) as H;
    destruct (describe_all import_table l d w0) as [[pd|e] w1]
  end; simpl in *;
    (eapply only_imports_trans; [apply only_imports_record|exact H]).
Qed.

(** X6. Neither [listProviders], with or without descriptions, nor
    [getProviderDescription] instantiates or calls a provider: the
    instance table, every provider object and the allocator are left
    as they were, and the only effects are imports of modules. *)
Theorem registry_only_imports descriptions provider w :
  only_imports w (snd (listProviders import_table descriptions w)) /\
  only_imports w (snd (getProviderDescription import_table provider w)).
Proof.
  split.
  - apply listProviders_only_imports.
  - apply getProviderDescription_only_imports.
Qed.

Lemma describe_all_described providerList : forall providerDict w,
  Forall (described import_table) providerList ->
  exists d,
    describe_all import_table providerList providerDict w
    = (Ok d, {| providerInstances := providerInstances w;
                heap := heap w;
                next_ref := next_ref w;
                trace := trace w
                         ++ map (fun p => EvImport (provider_package +:+ p)) providerList |}) /\
    (forall id, id ∈ dict_keys d <-> id ∈ dict_keys providerDict \/ id ∈ providerList) /\
    (forall v, v ∈ map snd d ->
               v ∈ map snd providerDict \/
               (has_key "short" v = true /\ has_key "long" v = true)).
Proof.
  induction providerList as [|p rest IH]; intros providerDict w Hall.
  - exists providerDict. simpl. rewrite app_nil_r. split; [now destruct w|].
    split; [|auto]. intros id. split; [auto|]. intros [?|H]; [assumption|].
    now apply not_elem_of_nil in H.
  - inversion Hall as [|? ? (cls & Hp & Hshort & Hlong) Hrest]; subst.
    cbn [describe_all]. unfold mbind, M_bind.
    rewrite (getProviderDescription_imported import_table p cls w Hp), Hshort, Hlong.
    cbn [andb].
    destruct (IH (dict_set p (description cls) providerDict)
                 (record (EvImport (provider_package +:+ p)) w) Hrest)
      as (d & Hrun & Hkeys & Hvals).
    exists d. rewrite Hrun. simpl. rewrite <- app_assoc. split; [reflexivity|]. split.
    + intros id. rewrite Hkeys, dict_keys_set_elem, elem_of_cons. tauto.
    + intros v Hv. apply Hvals in Hv. destruct Hv as [Hv|Hv]; [|auto].
      apply dict_values_set_elem in Hv. destruct Hv as [->|Hv]; auto.
Qed.

(** X7. When the module of every identifier of the manifest imports
    and its description has both keys, [listProviders] with
    descriptions returns a mapping whose keys are exactly the
    identifiers that [listProviders] without descriptions returns, and
    whose every value has the keys ['short'] and ['long']; it imports
    the package and then each listed module, in order. *)
Theorem listProviders_describes_the_manifest all w :
  import_table (provider_package +:+ "__init__") = Ok (PackageInit all) ->
  Forall (described import_table) all ->
  fst (listProviders import_table false w) = Ok (Names all) /\
  exists d,
    fst (listProviders import_table true w) = Ok (Descriptions d) /\
    (forall id, id ∈ dict_keys d <-> id ∈ all) /\
    (forall id v, dict_get id d = Some v ->
                  has_key "short" v = true /\ has_key "long" v = true) /\
    trace (snd (listProviders import_table true w))
    = trace w ++ EvImport (provider_package +:+ "__init__")
              :: map (fun p => EvImport (provider_package +:+ p)) all.
Proof.
  intros Hinit Hall. unfold listProviders, get_all. run_monad. rewrite Hinit. simpl.
  split; [reflexivity|].
  destruct (describe_all_described all []
              (record (EvImport (provider_package +:+ "__init__")) w) Hall)
    as (d & Hrun & Hkeys & Hvals).
  exists d. rewrite Hrun. simpl. split; [reflexivity|]. split; [|split].
  - intros id. rewrite Hkeys. simpl. split; [|auto].
    intros [H|H]; [now apply not_elem_of_nil in H|exact H].
  - intros id v Hget. apply dict_get_values in Hget. apply Hvals in Hget.
    destruct Hget as [H|H]; [now apply not_elem_of_nil in H|exact H].
  - now rewrite <- app_assoc.
Qed.

(** X8. [getProviderDescription] with an identifier that is not a
    string raises [ValueError] before anything is imported. *)
Theorem getProviderDescription_rejects_non_string provider w :
  (forall id, provider <> PyStr id) ->
  getProviderDescription import_table provider w
  = (Raise (ValueError "`provider` must be a string."), w).
Proof.
  intros Hprovider. destruct provider as [|n|id|l]; try reflexivity.
  now destruct (Hprovider id).
Qed.

(** X9. An identifier whose import raises [KeyError] is treated
    differently by the two callers of [import_module]: construction
    skips it with a warning, while [getProviderDescription] lets the
    [KeyError] through instead of raising [ProviderLoadError]. *)
Theorem key_error_is_tolerated_by_init_only id key w :
  import_table (provider_package +:+ id) = Raise (KeyError key) ->
  load_provider import_table (PyStr id) w
  = (Ok tt, record (EvWarn id ProviderLoadWarning)
                   (record (EvImport (provider_package +:+ id)) w)) /\
  getProviderDescription import_table (PyStr id) w
  = (Raise (KeyError key), record (EvImport (provider_package +:+ id)) w).
Proof.
  intros Himport. split.
  - apply load_provider_unavailable. unfold unavailable. now rewrite Himport.
  - unfold getProviderDescription. run_monad. now rewrite Himport.
Qed.
End RegistryMore.

Lemma registry_only_imports_example :
  trace (snd (listProviders more_modules true (built_more ["p1"])))
  = trace (built_more ["p1"])
    ++ map EvImport ["indelve.providers.__init__"; "indelve.providers.p1";
                     "indelve.providers.p2"] /\
  providerInstances (snd (listProviders more_modules true (built_more ["p1"])))
  = [("p1", 0%nat)].
Proof. split; vm_compute; reflexivity. Qed.

(** The manifest of the second installation: [p1] and [p2]. *)
Lemma listProviders_describes_the_manifest_witness :
  fst (listProviders more_modules false empty_world) = Ok (Names ["p1"; "p2"]) /\
  exists d,
    fst (listProviders more_modules true empty_world) = Ok (Descriptions d) /\
    dict_keys d = ["p1"; "p2"].
Proof.
  destruct (listProviders_describes_the_manifest more_modules ["p1"; "p2"] empty_world)
    as (Hnames & d & Hd & _).
  - reflexivity.
  - constructor; [|constructor; [|constructor]].
    + exists {| description := full_description;
                construct := Ok (stub (Ok [item 3 "c"; item 1 "a"])) |}.
      repeat split.
    + exists {| description := full_description;
                construct := Ok (stub (Ok [item 2 "b"])) |}.
      repeat split.
  - split; [exact Hnames|]. exists d. split; [exact Hd|].
    vm_compute in Hd. injection Hd as <-. reflexivity.
Defined.

Lemma getProviderDescription_rejects_non_string_witness :
  getProviderDescription example_modules (PyList [PyStr "p1"]) empty_world
  = (Raise (ValueError "`provider` must be a string."), empty_world).
Proof.
  apply (getProviderDescription_rejects_non_string example_modules
           (PyList [PyStr "p1"]) empty_world).
  intros id. discriminate.
Defined.

Lemma key_error_is_tolerated_by_init_only_witness :
  fst (load_provider more_modules (PyStr "ghost") empty_world) = Ok tt /\
  fst (getProviderDescription more_modules (PyStr "ghost") empty_world)
  = Raise (KeyError "ghost").
Proof.
  destruct (key_error_is_tolerated_by_init_only more_modules "ghost" "ghost"
              empty_world eq_refl) as [Hload Hdescribe].
  rewrite Hload, Hdescribe. split; reflexivity.
Defined.

(** ** Refresh *)

Lemma call_refresh_run r force w :
  call_refresh r force w
  = (refreshes w force r,
     store r (after_refresh (heap w r) force) (record (EvRefresh r force) w)).
Proof.
  unfold call_refresh, refreshes, after_refresh.
  now destruct (p_refresh (heap w r) (p_data (heap w r)) force).
Qed.

Lemma refreshes_ext w w' force r :
  heap w' r = heap w r -> refreshes w' force r = refreshes w force r.
Proof. unfold refreshes. now intros ->. Qed.

Lemma with_state_same o : with_state o (p_data o) = o.
Proof. now destruct o. Qed.

Lemma entries_other_refs (entries : list (string * ref)) r :
  r ∉ map snd entries -> Forall (fun e => snd e <> r) entries.
Proof.
  intros Hr. apply Forall_forall. intros [n' r'] Hin. simpl. intros ->. apply Hr.
  apply list_elem_of_fmap. now exists (n', r).
Qed.

Abbreviation refresh_loop force :=
  (for_each (fun name => inst ← lookup_instance name; call_refresh inst force)).

Lemma refresh_loop_cons force name r rest w :
  dict_get name (providerInstances w) = Some r ->
  refresh_loop force (name :: rest) w
  = match refreshes w force r with
    | Ok _ =>
        refresh_loop force rest
          (store r (after_refresh (heap w r) force) (record (EvRefresh r force) w))
    | Raise e =>
        (Raise e, store r (after_refresh (heap w r) force) (record (EvRefresh r force) w))
    end.
Proof.
  intros Hget. rewrite for_each_cons. run_monad. rewrite Hget, call_refresh_run.
  now destruct (refreshes w force r).
Qed.

(** The loop of [refresh] when every provider returns. *)
Lemma refresh_loop_all force entries : forall w,
  NoDup (map snd entries) ->
  Forall (fun e => dict_get (fst e) (providerInstances w) = Some (snd e)) entries ->
  Forall (fun e => refreshes w force (snd e) = Ok tt) entries ->
  exists w',
    refresh_loop force (map fst entries) w = (Ok tt, w') /\
    trace w' = trace w ++ map (fun e => EvRefresh (snd e) force) entries /\
    (forall e, e ∈ entries -> heap w' (snd e) = after_refresh (heap w (snd e)) force) /\
    (forall r, r ∉ map snd entries -> heap w' r = heap w r).
Proof.
  induction entries as [|[name r] rest IH]; intros w Hnd Hget Hok.
  - exists w. simpl. rewrite app_nil_r.
    split; [reflexivity|]. split; [reflexivity|]. split; [|auto].
    intros e He. now apply not_elem_of_nil in He.
  - inversion Hnd as [|? ? Hr Hnd']; subst.
    inversion Hget as [|? ? Hname Hget']; subst.
    inversion Hok as [|? ? Hrok Hok']; subst. simpl in Hname, Hrok.
    cbn [map fst]. rewrite (refresh_loop_cons force name r _ w Hname), Hrok.
    set (w1 := store r (after_refresh (heap w r) force) (record (EvRefresh r force) w)).
    pose proof (entries_other_refs rest r Hr) as Hother.
    assert (Hsame : forall r', r' <> r -> heap w1 r' = heap w r').
    { intros r' Hne. simpl. apply Nat.eqb_neq in Hne. now rewrite Hne. }
    destruct (IH w1 Hnd') as (w' & Hrun & Htrace & Hin & Hout).
    { exact Hget'. }
    { rewrite Forall_forall in *. intros e He.
      rewrite (refreshes_ext w w1); auto. }
    exists w'. split; [exact Hrun|]. split; [|split].
    + rewrite Htrace. simpl. now rewrite <- app_assoc.
    + intros e He. apply elem_of_cons in He. destruct He as [->|He].
      * simpl. rewrite Hout by exact Hr. simpl. now rewrite Nat.eqb_refl.
      * rewrite (Hin e He). rewrite Forall_forall in Hother.
        now rewrite Hsame by auto.
    + intros r' Hr'. simpl in Hr'. apply not_elem_of_cons in Hr'.
      destruct Hr' as [Hne Hr']. rewrite (Hout r' Hr'). now apply Hsame.
Qed.

(** The loop of [refresh] up to the first provider that raises. *)
Lemma refresh_loop_stops force pre name r post e : forall w,
  NoDup (map snd (pre ++ (name, r) :: post)) ->
  Forall (fun e => dict_get (fst e) (providerInstances w) = Some (snd e))
         (pre ++ (name, r) :: post) ->
  Forall (fun e => refreshes w force (snd e) = Ok tt) pre ->
  refreshes w force r = Raise e ->
  exists w',
    refresh_loop force (map fst (pre ++ (name, r) :: post)) w = (Raise e, w') /\
    trace w' = trace w ++ map (fun e => EvRefresh (snd e) force) (pre ++ [(name, r)]) /\
    (forall e, e ∈ post -> heap w' (snd e) = heap w (snd e)).
Proof.
  induction pre as [|[n0 r0] pre IH]; intros w Hnd Hget Hok Hr.
  - cbn [app] in *. inversion Hnd as [|? ? Hfresh _]; subst.
    inversion Hget as [|? ? Hname _]; subst. simpl in Hname.
    cbn [map fst]. rewrite (refresh_loop_cons force name r _ w Hname), Hr.
    eexists. split; [reflexivity|]. split; [reflexivity|].
    intros e' He'. simpl.
    pose proof (entries_other_refs post r Hfresh) as Hother.
    rewrite Forall_forall in Hother. specialize (Hother e' He').
    apply Nat.eqb_neq in Hother. now rewrite Hother.
  - cbn [app] in *. inversion Hnd as [|? ? Hfresh Hnd']; subst.
    inversion Hget as [|? ? Hname Hget']; subst.
    inversion Hok as [|? ? Hr0 Hok']; subst. simpl in Hname, Hr0.
    cbn [map fst]. rewrite (refresh_loop_cons force n0 r0 _ w Hname), Hr0.
    set (w1 := store r0 (after_refresh (heap w r0) force) (record (EvRefresh r0 force) w)).
    pose proof (entries_other_refs _ r0 Hfresh) as Hother.
    assert (Hsame : forall r', r' <> r0 -> heap w1 r' = heap w r').
    { intros r' Hne. simpl. apply Nat.eqb_neq in Hne. now rewrite Hne. }
    rewrite Forall_app, Forall_cons in Hother. destruct Hother as (Hpre & Hne & Hpost).
    simpl in Hne.
    destruct (IH w1 Hnd') as (w' & Hrun & Htrace & Huntouched).
    { exact Hget'. }
    { rewrite Forall_forall in *. intros e' He'.
      rewrite (refreshes_ext w w1); auto. }
    { rewrite (refreshes_ext w w1); auto. }
    exists w'. split; [exact Hrun|]. split.
    + rewrite Htrace. simpl. now rewrite <- app_assoc.
    + intros e' He'. rewrite (Huntouched e' He').
      rewrite Forall_forall in Hpost. auto.
Qed.

Lemma refresh_loop_keeps_data force names : forall w,
  (forall name r, dict_get name (providerInstances w) = Some r ->
                  keeps_data (heap w r) force) ->
  forall r, heap (snd (refresh_loop force names w)) r = heap w r.
Proof.
  induction names as [|name rest IH]; intros w Hkeeps r; [reflexivity|].
  destruct (dict_get name (providerInstances w)) as [r0|] eqn:Hget.
  - rewrite (refresh_loop_cons force name r0 rest w Hget).
    assert (Hsame : forall r',
              heap (store r0 (after_refresh (heap w r0) force)
                      (record (EvRefresh r0 force) w)) r' = heap w r').
    { intros r'. simpl. destruct (Nat.eqb_spec r' r0) as [->|]; [|reflexivity].
      unfold after_refresh. rewrite (Hkeeps name r0 Hget). apply with_state_same. }
    destruct (refreshes w force r0); simpl; [|apply Hsame].
    rewrite IH; [apply Hsame|].
    intros name' r' Hget'. rewrite Hsame. now apply (Hkeeps name').
  - rewrite for_each_cons. run_monad. now rewrite Hget.
Qed.

Section RefreshMore.
Variable import_table : string -> res PyModule.
Variable isItemDict : Item -> bool.

(** X10. On a constructed orchestrator whose providers all return from
    [refresh], [refresh(force)] returns, having called [refresh] with
    that very flag once on each loaded provider, in the order of the
    table; each loaded provider is left in the state its own [refresh]
    produced and no other object is touched. *)
Theorem refresh_refreshes_every_provider force w :
  constructed import_table isItemDict w ->
  Forall (fun e => refreshes w force (snd e) = Ok tt) (providerInstances w) ->
  exists w',
    refresh force w = (Ok tt, w') /\
    refreshed (trace w')
    = refreshed (trace w) ++ map (fun e => (snd e, force)) (providerInstances w) /\
    (forall e, e ∈ providerInstances w ->
               heap w' (snd e) = after_refresh (heap w (snd e)) force) /\
    (forall r, r ∉ map snd (providerInstances w) -> heap w' r = heap w r).
Proof.
  intros Hw Hall. apply constructed_table_ok in Hw. destruct Hw as [(Hk & Hr & _) _].
  destruct (refresh_loop_all force (providerInstances w) w Hr
              (dict_get_entries _ Hk) Hall) as (w' & Hrun & Htrace & Hin & Hout).
  exists w'. split; [exact Hrun|]. split; [|split; assumption].
  rewrite Htrace. unfold refreshed. rewrite omap_app. f_equal.
  generalize (providerInstances w) as entries. clear.
  induction entries as [|e entries IH]; [reflexivity|].
  change ((snd e, force)
            :: omap (fun ev => match ev with EvRefresh r f => Some (r, f) | _ => None end)
                 (map (fun e => EvRefresh (snd e) force) entries)
          = (snd e, force) :: map (fun e => (snd e, force)) entries).
  now f_equal.
Qed.

(** X11. [refresh] does not isolate a failure: when the providers
    before one return and that one raises, [refresh] raises the same
    exception, and the providers after it are neither called nor
    changed. *)
Theorem refresh_lets_failure_through force w pre name r post e :
  constructed import_table isItemDict w ->
  providerInstances w = pre ++ (name, r) :: post ->
  Forall (fun e => refreshes w force (snd e) = Ok tt) pre ->
  refreshes w force r = Raise e ->
  exists w',
    refresh force w = (Raise e, w') /\
    trace w' = trace w ++ map (fun e => EvRefresh (snd e) force) (pre ++ [(name, r)]) /\
    (forall e, e ∈ post -> heap w' (snd e) = heap w (snd e)).
Proof.
  intros Hw Htable Hpre Hraise.
  apply constructed_table_ok in Hw. destruct Hw as [(Hk & Hr & _) _].
  pose proof (dict_get_entries _ Hk) as Hget. rewrite Htable in Hr, Hget at 1.
  destruct (refresh_loop_stops force pre name r post e w Hr Hget Hpre Hraise)
    as (w' & Hrun & Htrace & Hpost).
  exists w'. split; [|split; assumption].
  unfold refresh. run_monad. unfold dict_keys. rewrite Htable. exact Hrun.
Qed.

(** X12. When [refresh(force)] leaves the data of every loaded
    provider as it is (as for providers without a database), a
    [search] after the refresh gives what a [search] before it gives,
    whether or not the refresh returned. *)
Theorem refresh_without_data_keeps_search force q w :
  constructed import_table isItemDict w ->
  (forall e, e ∈ providerInstances w -> keeps_data (heap w (snd e)) force) ->
  q <> EmptyString ->
  fst (search isItemDict (PyStr q) (snd (refresh force w)))
  = fst (search isItemDict (PyStr q) w).
Proof.
  intros Hw Hkeeps Hq. apply constructed_table_ok in Hw. destruct Hw as [Hok _].
  pose proof (refresh_frame force w) as Hframe.
  assert (Hheap : forall r, heap (snd (refresh force w)) r = heap w r).
  { unfold refresh. run_monad. apply refresh_loop_keeps_data.
    intros name r Hget. apply (Hkeeps (name, r)).
    clear -Hget. induction (providerInstances w) as [|[k v] d IH]; [discriminate|].
    simpl in Hget. destruct (String.eqb name k) eqn:E.
    - apply String.eqb_eq in E. injection Hget as ->. subst. apply list_elem_of_here.
    - apply list_elem_of_further. auto. }
  rewrite !search_collect; try assumption.
  - replace (answers (snd (refresh force w)) q) with (answers w q); [reflexivity|].
    unfold answers. destruct Hframe as [-> _].
    apply map_ext. intros e. symmetry. apply answer_ext, Hheap.
  - eapply table_ok_same; eassumption.
Qed.
End RefreshMore.

(** An incremental refresh of [p1] and [counter]: both are called, and
    [counter] has counted one refresh. *)
Lemma refresh_refreshes_every_provider_witness :
  exists w',
    refresh false (built_more ["p1"; "counter"]) = (Ok tt, w') /\
    refreshed (trace w') = [(0%nat, false); (1%nat, false)] /\
    answer w' "apps" 1%nat = Ok [item 1 "count"].
Proof.
  destruct (refresh_refreshes_every_provider more_modules has_relevance false
              (built_more ["p1"; "counter"])) as (w' & Hrun & Hcalls & Hin & _).
  - apply built_more_constructed. vm_compute. reflexivity.
  - vm_compute. repeat constructor.
  - exists w'. split; [exact Hrun|]. split.
    + rewrite Hcalls. vm_compute. reflexivity.
    + assert (Hcounter : heap w' 1%nat
                         = after_refresh (heap (built_more ["p1"; "counter"]) 1%nat) false).
      { apply (Hin ("counter", 1%nat)).
        vm_compute. apply list_elem_of_further, list_elem_of_here. }
      unfold answer. rewrite Hcounter. vm_compute. reflexivity.
Defined.

(** A forced refresh: [counter] cannot rebuild, and [p2], after it, is
    not called. *)
Lemma refresh_lets_failure_through_witness :
  exists w',
    refresh true (built_more ["p1"; "counter"; "p2"])
    = (Raise (ProviderError "cannot rebuild"), w') /\
    trace w' = trace (built_more ["p1"; "counter"; "p2"])
               ++ [EvRefresh 0%nat true; EvRefresh 1%nat true].
Proof.
  destruct (refresh_lets_failure_through more_modules has_relevance true
              (built_more ["p1"; "counter"; "p2"])
              [("p1", 0%nat)] "counter" 1%nat [("p2", 2%nat)]
              (ProviderError "cannot rebuild")) as (w' & Hrun & Htrace & _).
  - apply built_more_constructed. vm_compute. reflexivity.
  - vm_compute. reflexivity.
  - vm_compute. repeat constructor.
  - vm_compute. reflexivity.
  - exists w'. split; [exact Hrun|]. rewrite Htrace. reflexivity.
Defined.

(** The stub providers have no data to refresh. *)
Lemma refresh_without_data_keeps_search_witness :
  fst (search has_relevance (PyStr "apps") (snd (refresh false (built ["p1"; "p2"]))))
  = fst (search has_relevance (PyStr "apps") (built ["p1"; "p2"])).
Proof.
  apply (refresh_without_data_keeps_search example_modules has_relevance false
           "apps" (built ["p1"; "p2"])).
  - apply built_constructed. vm_compute. reflexivity.
  - intros e He. vm_compute in He.
    apply elem_of_cons in He. destruct He as [->|He]; [reflexivity|].
    apply elem_of_cons in He. destruct He as [->|He]; [reflexivity|].
    now apply not_elem_of_nil in He.
  - discriminate.
Defined.

(** ** Search: failures, the item check, ties *)

Section SearchMoreFacts.
Variable isItemDict : Item -> bool.

Lemma search_loop_cons q name r rest items w :
  dict_get name (providerInstances w) = Some r ->
  search_loop isItemDict q (name :: rest) items w
  = match answer w q r with
    | Ok results =>
        if forallb isItemDict items
        then search_loop isItemDict q rest (items ++ results) (snd (call_search r q w))
        else (Raise AssertionError, snd (call_search r q w))
    | Raise e =>
        if is_value_error e
        then search_loop isItemDict q rest items (snd (call_search r q w))
        else (Raise e, snd (call_search r q w))
    end.
Proof.
  intros Hget. cbn [search_loop]. run_monad. rewrite Hget.
  rewrite <- (call_search_fst r q w).
  destruct (call_search r q w) as [[results|e] w1]; simpl.
  - now destruct (forallb isItemDict items).
  - now destruct (is_value_error e).
Qed.

(** The loop of [search] up to the first provider that raises an
    exception other than [ValueError]. *)
Lemma search_loop_stops q pre name r post e : forall items w,
  NoDup (map snd (pre ++ (name, r) :: post)) ->
  Forall (fun e => dict_get (fst e) (providerInstances w) = Some (snd e))
         (pre ++ (name, r) :: post) ->
  Forall (fun e => well_behaved isItemDict (answer w q (snd e))) pre ->
  Forall (fun a => isItemDict a = true) items ->
  answer w q r = Raise e ->
  is_value_error e = false ->
  exists w',
    search_loop isItemDict q (map fst (pre ++ (name, r) :: post)) items w = (Raise e, w') /\
    trace w' = trace w ++ map (fun e => EvSearch (snd e) q) (pre ++ [(name, r)]).
Proof.
  induction pre as [|[n0 r0] pre IH]; intros items w Hnd Hget Hpre Hitems Hr He.
  - cbn [app] in *. inversion Hget as [|? ? Hname _]; subst. simpl in Hname.
    cbn [map fst]. rewrite (search_loop_cons q name r _ items w Hname), Hr, He.
    eexists. split; [reflexivity|].
    now destruct (call_search_snd r q w) as (_ & _ & -> & _).
  - cbn [app] in *. inversion Hnd as [|? ? Hfresh Hnd']; subst.
    inversion Hget as [|? ? Hname Hget']; subst.
    inversion Hpre as [|? ? Hr0 Hpre']; subst. simpl in Hname, Hr0.
    cbn [map fst]. rewrite (search_loop_cons q n0 r0 _ items w Hname).
    destruct (call_search_snd r0 q w) as (Hi & _ & Ht & Hheap).
    set (w1 := snd (call_search r0 q w)) in *.
    pose proof (entries_other_refs _ r0 Hfresh) as Hother.
    rewrite Forall_app, Forall_cons in Hother. destruct Hother as (Hop & Hne & _).
    simpl in Hne.
    assert (Hget1 : Forall (fun e => dict_get (fst e) (providerInstances w1) = Some (snd e))
                           (pre ++ (name, r) :: post)) by now rewrite Hi.
    assert (Hpre1 : Forall (fun e => well_behaved isItemDict (answer w1 q (snd e))) pre).
    { rewrite Forall_forall in *. intros e' He'.
      rewrite (answer_ext w w1); auto. }
    assert (Hr1 : answer w1 q r = Raise e) by (rewrite (answer_ext w w1); auto).
    destruct (answer w q r0) as [results|e0]; simpl in Hr0.
    + rewrite (forallb_Forall_true _ _ Hitems).
      destruct (IH (items ++ results) w1 Hnd' Hget1 Hpre1) as (w' & Hrun & Htrace);
        try assumption.
      { apply Forall_app. auto. }
      exists w'. split; [exact Hrun|]. rewrite Htrace, Ht. simpl. now rewrite <- app_assoc.
    + rewrite Hr0.
      destruct (IH items w1 Hnd' Hget1 Hpre1) as (w' & Hrun & Htrace); try assumption.
      exists w'. split; [exact Hrun|]. rewrite Htrace, Ht. simpl. now rewrite <- app_assoc.
Qed.

Lemma collect_app outs1 outs2 : forall items,
  collect isItemDict (outs1 ++ outs2) items
  = match collect isItemDict outs1 items with
    | Ok items' => collect isItemDict outs2 items'
    | Raise e => Raise e
    end.
Proof.
  induction outs1 as [|[results|e] outs1 IH]; intros items; simpl; [reflexivity| |].
  - destruct (forallb isItemDict items); [apply IH|reflexivity].
  - destruct (is_value_error e); [apply IH|reflexivity].
Qed.

Lemma collect_value_errors outs rest items :
  Forall (fun out => exists msg, out = Raise (ValueError msg)) outs ->
  collect isItemDict (outs ++ rest) items = collect isItemDict rest items.
Proof.
  induction 1 as [|out outs [msg ->] _ IH]; [reflexivity|]. simpl. exact IH.
Qed.

Lemma forallb_exists_false (l : list Item) :
  Exists (fun a => isItemDict a = false) l -> forallb isItemDict l = false.
Proof.
  induction 1 as [a l Ha|a l _ IH]; simpl.
  - now rewrite Ha.
  - rewrite IH. apply andb_false_r.
Qed.

Lemma list_sort_key_error (l : list Item) :
  Exists (fun a => a !! "relevance" = None) l ->
  list_sort relevance l = Raise (KeyError "relevance").
Proof.
  intros Hex. unfold list_sort.
  destruct (decorate relevance l) as [kl|e] eqn:Hd.
  - exfalso. apply decorate_ok in Hd. destruct Hd as [<- Hk].
    apply Exists_exists in Hex. destruct Hex as (a & Ha & Hnone).
    apply list_elem_of_fmap in Ha. destruct Ha as (p & -> & Hp).
    rewrite Forall_forall in Hk. specialize (Hk p Hp).
    unfold relevance in Hk. now rewrite Hnone in Hk.
  - apply decorate_raise in Hd. destruct Hd as (a & _ & Ha).
    unfold relevance in Ha. destruct (a !! "relevance"); [discriminate|].
    now injection Ha as <-.
Qed.
End SearchMoreFacts.

Lemma field_eqb_eq k v : field_eqb k v = true -> v = k.
Proof.
  destruct k as [x|s], v as [y|t]; simpl; try discriminate.
  - intros H. apply Z.eqb_eq in H. now subst.
  - intros H. apply String.eqb_eq in H. now subst.
Qed.

Lemma field_leb_refl k : field_leb k k = true.
Proof. destruct k as [x|s]; simpl; [apply Z.leb_refl|apply string_leb_refl]. Qed.

Lemma filter_keyed (k : field) (kl : list (field * Item)) :
  Forall (fun p => relevance (snd p) = Ok (fst p)) kl ->
  filter (fun a => relevance_is k a = true) (map snd kl)
  = map snd (filter (fun p => field_eqb k (fst p) = true) kl).
Proof.
  induction 1 as [|p kl Hp _ IH]; [reflexivity|].
  assert (Hk : relevance_is k (snd p) = field_eqb k (fst p)).
  { unfold relevance_is. now rewrite Hp. }
  cbn [map]. rewrite !filter_cons, IH.
  destruct (decide (relevance_is k (snd p) = true)) as [H1|H1];
    destruct (decide (field_eqb k (fst p) = true)) as [H2|H2];
    try reflexivity; congruence.
Qed.

(** Sorting keeps the items of any one relevance in their order. *)
Lemma list_sort_stable (l sorted : list Item) k :
  list_sort relevance l = Ok sorted ->
  filter (fun a => relevance_is k a = true) sorted
  = filter (fun a => relevance_is k a = true) l.
Proof.
  unfold list_sort. destruct (decorate relevance l) as [kl|] eqn:Hd; [|discriminate].
  intros [= <-]. destruct (decorate_ok _ _ _ Hd) as [<- Hk].
  rewrite !filter_keyed; [|assumption|now rewrite sort_keyed_perm].
  f_equal. apply (sort_keyed_filter (field_eqb k)).
  intros a b Ha Hb. apply field_eqb_eq in Ha, Hb. subst.
  split; apply field_leb_refl.
Qed.

Section SearchMore.
Variable import_table : string -> res PyModule.
Variable isItemDict : Item -> bool.

(** X13. [search] isolates [ValueError] only: when the providers
    before one are well behaved and that one raises another exception,
    [search] raises the same exception, and the providers after it are
    not called. *)
Theorem search_lets_provider_failure_through q w pre name r post e :
  q <> EmptyString ->
  constructed import_table isItemDict w ->
  providerInstances w = pre ++ (name, r) :: post ->
  Forall (fun e => well_behaved isItemDict (answer w q (snd e))) pre ->
  answer w q r = Raise e ->
  is_value_error e = false ->
  exists w',
    search isItemDict (PyStr q) w = (Raise e, w') /\
    trace w' = trace w ++ map (fun e => EvSearch (snd e) q) (pre ++ [(name, r)]).
Proof.
  intros Hq Hw Htable Hpre Hr He.
  apply constructed_table_ok in Hw. destruct Hw as [(Hk & Hrefs & _) _].
  pose proof (dict_get_entries _ Hk) as Hget. rewrite Htable in Hrefs, Hget at 1.
  destruct (search_loop_stops isItemDict q pre name r post e [] w
              Hrefs Hget Hpre (List.Forall_nil _) Hr He) as (w' & Hrun & Htrace).
  exists w'. split; [|exact Htrace].
  unfold search. rewrite (nonempty_length q Hq). run_monad.
  unfold dict_keys. rewrite Htable, Hrun. reflexivity.
Qed.

(** X14. The item check reaches the items of a provider only when a
    later provider returns: if a provider has returned an item that
    fails [isItemDict], the providers after it that raise [ValueError]
    are passed over without a check, and the next one that returns
    makes [search] raise [AssertionError]. *)
Theorem search_asserts_when_a_later_provider_returns
    q w pre n1 r1 results1 mid n2 r2 results2 post :
  q <> EmptyString ->
  constructed import_table isItemDict w ->
  providerInstances w = pre ++ (n1, r1) :: mid ++ (n2, r2) :: post ->
  Forall (fun e => well_behaved isItemDict (answer w q (snd e))) pre ->
  answer w q r1 = Ok results1 ->
  Exists (fun a => isItemDict a = false) results1 ->
  Forall (fun e => exists msg, answer w q (snd e) = Raise (ValueError msg)) mid ->
  answer w q r2 = Ok results2 ->
  fst (search isItemDict (PyStr q) w) = Raise AssertionError.
Proof.
  intros Hq Hw Htable Hpre Hr1 Hbad Hmid Hr2.
  apply constructed_table_ok in Hw. destruct Hw as [Hok _].
  rewrite (search_collect isItemDict q w Hq Hok).
  unfold answers. rewrite Htable, map_app. cbn [map snd]. rewrite map_app. cbn [map snd].
  rewrite Hr1, Hr2, collect_app.
  rewrite (collect_ok isItemDict _ []); [|now apply Forall_fmap|constructor].
  cbn [app collect].
  assert (Hitems : Forall (fun a => isItemDict a = true)
                     (flat_map results_of (map (fun e => answer w q (snd e)) pre))).
  { clear -Hpre. induction Hpre as [|e pre He _ IH]; [constructor|].
    cbn [map flat_map]. apply Forall_app. split; [|exact IH].
    destruct (answer w q (snd e)); [exact He|constructor]. }
  rewrite (forallb_Forall_true _ _ Hitems).
  rewrite collect_value_errors.
  - cbn [collect]. rewrite forallb_exists_false; [reflexivity|].
    apply Exists_app. now right.
  - apply Forall_fmap. exact Hmid.
Qed.

(** X15. An item without the key ['relevance'] returned by the last
    provider of the table passes the loop and makes the sort fail:
    [search] raises [KeyError]. *)
Theorem search_fails_on_missing_relevance q w pre name r results :
  q <> EmptyString ->
  constructed import_table isItemDict w ->
  providerInstances w = pre ++ [(name, r)] ->
  Forall (fun e => well_behaved isItemDict (answer w q (snd e))) pre ->
  answer w q r = Ok results ->
  Exists (fun a => a !! "relevance" = None) results ->
  fst (search isItemDict (PyStr q) w) = Raise (KeyError "relevance").
Proof.
  intros Hq Hw Htable Hpre Hr Hnone.
  apply constructed_table_ok in Hw. destruct Hw as [Hok _].
  rewrite (search_collect isItemDict q w Hq Hok).
  unfold answers. rewrite Htable, map_app. cbn [map snd]. rewrite Hr, collect_app.
  rewrite (collect_ok isItemDict _ []); [|now apply Forall_fmap|constructor].
  cbn [app collect].
  assert (Hitems : Forall (fun a => isItemDict a = true)
                     (flat_map results_of (map (fun e => answer w q (snd e)) pre))).
  { clear -Hpre. induction Hpre as [|e pre He _ IH]; [constructor|].
    cbn [map flat_map]. apply Forall_app. split; [|exact IH].
    destruct (answer w q (snd e)); [exact He|constructor]. }
  rewrite (forallb_Forall_true _ _ Hitems).
  apply list_sort_key_error, Exists_app. now right.
Qed.

(** X16. Items of equal relevance come out in the order in which they
    were collected: by provider, in the order of the table, and within
    a provider in the order it returned them. *)
Theorem search_keeps_order_of_ties q w sorted k :
  q <> EmptyString ->
  constructed import_table isItemDict w ->
  fst (search isItemDict (PyStr q) w) = Ok sorted ->
  filter (fun a => relevance_is k a = true) sorted
  = filter (fun a => relevance_is k a = true) (flat_map results_of (answers w q)).
Proof.
  intros Hq Hw Hs. apply constructed_table_ok in Hw. destruct Hw as [Hok _].
  apply list_sort_stable. now apply search_returns with (isItemDict := isItemDict).
Qed.
End SearchMore.

(** [crash] raises an error of its own: [p2], after it, is not
    called. *)
Lemma search_lets_provider_failure_through_witness :
  exists w',
    search has_relevance (PyStr "apps") (built_more ["p1"; "crash"; "p2"])
    = (Raise (ProviderError "crashed"), w') /\
    trace w' = trace (built_more ["p1"; "crash"; "p2"])
               ++ [EvSearch 0%nat "apps"; EvSearch 1%nat "apps"].
Proof.
  destruct (search_lets_provider_failure_through more_modules has_relevance
              "apps" (built_more ["p1"; "crash"; "p2"])
              [("p1", 0%nat)] "crash" 1%nat [("p2", 2%nat)] (ProviderError "crashed"))
    as (w' & Hrun & Htrace).
  - discriminate.
  - apply built_more_constructed. vm_compute. reflexivity.
  - vm_compute. reflexivity.
  - vm_compute. repeat constructor.
  - vm_compute. reflexivity.
  - reflexivity.
  - exists w'. split; [exact Hrun|]. rewrite Htrace. reflexivity.
Defined.

(** [sloppy] returns an item without relevance, [picky] rejects the
    query, and [p2] returns. *)
Lemma search_asserts_when_a_later_provider_returns_witness :
  fst (search has_relevance (PyStr "apps") (built_more ["sloppy"; "picky"; "p2"]))
  = Raise AssertionError.
Proof.
  apply (search_asserts_when_a_later_provider_returns more_modules has_relevance
           "apps" (built_more ["sloppy"; "picky"; "p2"])
           [] "sloppy" 0%nat [{[ "name" := FStr "x" ]}]
           [("picky", 1%nat)] "p2" 2%nat [item 2 "b"] []).
  - discriminate.
  - apply built_more_constructed. vm_compute. reflexivity.
  - vm_compute. reflexivity.
  - constructor.
  - vm_compute. reflexivity.
  - constructor. vm_compute. reflexivity.
  - constructor; [|constructor]. exists "not for me". vm_compute. reflexivity.
  - vm_compute. reflexivity.
Defined.

(** [sloppy] is the last provider. *)
Lemma search_fails_on_missing_relevance_witness :
  fst (search has_relevance (PyStr "apps") (built_more ["p1"; "sloppy"]))
  = Raise (KeyError "relevance").
Proof.
  apply (search_fails_on_missing_relevance more_modules has_relevance
           "apps" (built_more ["p1"; "sloppy"])
           [("p1", 0%nat)] "sloppy" 1%nat [{[ "name" := FStr "x" ]}]).
  - discriminate.
  - apply built_more_constructed. vm_compute. reflexivity.
  - vm_compute. reflexivity.
  - vm_compute. repeat constructor.
  - vm_compute. reflexivity.
  - constructor. vm_compute. reflexivity.
Defined.

(** [twin] and [p2] each return an item of relevance 2: the one of
    [twin], loaded first, comes first. *)
Lemma search_keeps_order_of_ties_witness :
  fst (search has_relevance (PyStr "apps") (built_more ["twin"; "p1"; "p2"]))
  = Ok [item 1 "a"; item 2 "z"; item 2 "b"; item 3 "c"] /\
  filter (fun a => relevance_is (FInt 2) a = true)
         [item 1 "a"; item 2 "z"; item 2 "b"; item 3 "c"]
  = filter (fun a => relevance_is (FInt 2) a = true)
           (flat_map results_of (answers (built_more ["twin"; "p1"; "p2"]) "apps")).
Proof.
  assert (Hs : fst (search has_relevance (PyStr "apps") (built_more ["twin"; "p1"; "p2"]))
               = Ok [item 1 "a"; item 2 "z"; item 2 "b"; item 3 "c"])
    by (vm_compute; reflexivity).
  split; [exact Hs|].
  apply (search_keeps_order_of_ties more_modules has_relevance "apps"
           (built_more ["twin"; "p1"; "p2"])).
  - discriminate.
  - apply built_more_constructed. vm_compute. reflexivity.
  - exact Hs.
Defined.
